(** * Claim validation pipeline: a shallow embedding of [validation.py]

    The development follows the Python module function by function.

    - Python [str] is [string]; each character stands for a code point
      below 256.
    - Python [float] is modelled by exact rationals ([Q]); the binary
      rounding error of IEEE arithmetic is not part of the model.  Equality
      of scores is therefore equality of rationals ([==]).
    - Python [int] is [Z]; list lengths are [nat] and are injected.
    - A [dict] is a [gmap].
    - The three remote capabilities (extraction, scraping, judgment), the
      UUID generator and the clock are oracles that read and update an
      abstract world; every capability invocation is appended to a trace.
    - Calls into the UI ([st.write], progress bars, [time.sleep]) have no
      influence on any returned value and are left out. *)

From Stdlib Require Import QArith Qround Qminmax Ascii Lqa.
From stdpp Require Import gmap strings list pretty.

Local Open Scope string_scope.

(** ** Data model ([models.py]) *)

Inductive Status := SUPPORTED | PARTIALLY_SUPPORTED | CONTRADICTED | UNVERIFIABLE.

#[global] Instance Status_eq_dec : EqDecision Status.
Proof. solve_decision. Defined.

(** The string a status is stored as (the [Literal] of the pydantic model). *)
Definition status_str (s : Status) : string :=
  match s with
  | SUPPORTED => "SUPPORTED"
  | PARTIALLY_SUPPORTED => "PARTIALLY_SUPPORTED"
  | CONTRADICTED => "CONTRADICTED"
  | UNVERIFIABLE => "UNVERIFIABLE"
  end.

Module Source.
Record t := mk {
  id : string;
  url : string;
  title : option string;
  content : option string
}.
Definition set_id (v : string) (s : t) : t := mk v (url s) (title s) (content s).
Definition set_content (v : string) (s : t) : t :=
  mk (id s) (url s) (title s) (Some v).
End Source.

Module Claim.
Record t := mk {
  id : string;
  statement : string;
  verification_question : string;
  source_urls : list string;
  source_ids : list string
}.
Definition set_id (v : string) (c : t) : t :=
  mk v (statement c) (verification_question c) (source_urls c) (source_ids c).
Definition set_source_ids (v : list string) (c : t) : t :=
  mk (id c) (statement c) (verification_question c) (source_urls c) v.
End Claim.

Module ValidationResult.
Record t := mk {
  claim_id : string;
  statement : string;
  verification_question : string;
  status : Status;
  confidence : Q;
  reasoning : string;
  has_contradictions : bool
}.
Definition set_claim_id (v : string) (r : t) : t :=
  mk v (statement r) (verification_question r) (status r) (confidence r)
     (reasoning r) (has_contradictions r).
Definition set_statement (v : string) (r : t) : t :=
  mk (claim_id r) v (verification_question r) (status r) (confidence r)
     (reasoning r) (has_contradictions r).
Definition set_verification_question (v : string) (r : t) : t :=
  mk (claim_id r) (statement r) v (status r) (confidence r)
     (reasoning r) (has_contradictions r).
End ValidationResult.

Module ExtractedReport.
Record t := mk {
  claims : list Claim.t;
  sources : list Source.t
}.
End ExtractedReport.

Module TrustReport.
Record t := mk {
  id : string;
  timestamp : string;
  trust_score : Q;
  claim_count : Z;
  results : gmap string Z;
  has_contradictions : bool
}.
End TrustReport.

(** ** Trust scorer ([calculate_trust_score]) *)

(** The [weights] dictionary of the scorer. *)
Definition weights : gmap string Q :=
  <["UNVERIFIABLE" := 1 # 5]>
  (<["CONTRADICTED" := 0 # 1]>
  (<["PARTIALLY_SUPPORTED" := 1 # 2]>
  (<["SUPPORTED" := 1 # 1]> ∅))).

(** [weights.get(status, 0.0)] *)
Definition weights_get (s : Status) : Q :=
  default (0 # 1) (weights !! status_str s).

(** [sum(weights.get(r.status, 0.0) for r in validation_results)]:
    Python's [sum] starts from 0 and adds from the left. *)
Definition score_sum (validation_results : list ValidationResult.t) : Q :=
  foldl (λ acc r, acc + weights_get (ValidationResult.status r))%Q 0%Q
        validation_results.

(** [sum(1 for r in validation_results if r.has_contradictions)] *)
Definition contradictions_within_claim
    (validation_results : list ValidationResult.t) : Z :=
  foldl (λ acc r, if ValidationResult.has_contradictions r then acc + 1 else acc)%Z
        0%Z validation_results.

(** [min(20, contradictions_within_claim * 5)] *)
Definition contradiction_penalty (contradictions : Z) : Z :=
  Z.min 20 (contradictions * 5).

(** [round(x)] on an exact value: nearest integer, ties to the even one. *)
Definition round_half_even (x : Q) : Z :=
  let f := Qfloor x in
  match (x - inject_Z f ?= 1 # 2)%Q with
  | Lt => f
  | Gt => (f + 1)%Z
  | Eq => if Z.even f then f else (f + 1)%Z
  end.

(** [round(x, 1)] *)
Definition round1 (x : Q) : Q := (inject_Z (round_half_even (x * 10)) / 10)%Q.

Definition calculate_trust_score
    (validation_results : list ValidationResult.t) : Q :=
  match validation_results with
  | [] => 0%Q
  | _ =>
    let score_sum := score_sum validation_results in
    let max_score := Z.of_nat (length validation_results) in
    if (max_score =? 0)%Z then 0%Q
    else
      let trust_score := (score_sum / inject_Z max_score * 100)%Q in
      let contradictions_within_claim :=
        contradictions_within_claim validation_results in
      let trust_score :=
        if (0 <? contradictions_within_claim)%Z then
          Qmax 0 (trust_score
                  - inject_Z (contradiction_penalty contradictions_within_claim))
        else trust_score in
      round1 trust_score
  end.

(** ** Strings: the library functions the pipeline calls *)

Definition nl : string := String (Ascii.ascii_of_nat 10) "".

(** [s[:n]] *)
Definition str_take (n : nat) (s : string) : string := String.substring 0 n s.

(** [s.startswith(p)] *)
Definition startswith (p s : string) : bool := String.prefix p s.

(** [sep.join(l)] *)
Fixpoint join (sep : string) (l : list string) : string :=
  match l with
  | [] => ""
  | [x] => x
  | x :: rest => x +:+ sep +:+ join sep rest
  end.

(** Whitespace as [str.isspace] and the regex class [\s] see it, on code
    points below 256: TAB..CR, FS..US, SPACE, NEL and NBSP. *)
Definition is_space (c : ascii) : bool :=
  let n := Ascii.nat_of_ascii c in
  ((9 <=? n)%nat && (n <=? 13)%nat) || ((28 <=? n)%nat && (n <=? 32)%nat)
  || (n =? 133)%nat || (n =? 160)%nat.

(** What a maximal whitespace run becomes under [\s{3,}] -> two newlines. *)
Definition flush_run (run : string) : string :=
  if (3 <=? String.length run)%nat then nl +:+ nl else run.

(** [re.sub(r"\s{3,}", "\n\n", s)], scanning left to right; [run] holds the
    whitespace characters of the run being read.  The pattern is greedy, so a
    match always covers a maximal run, and a run shorter than 3 is kept. *)
Fixpoint re_sub_ws3_go (run s : string) : string :=
  match s with
  | "" => flush_run run
  | String c s' =>
      if is_space c then re_sub_ws3_go (run +:+ String c "") s'
      else flush_run run +:+ String c (re_sub_ws3_go "" s')
  end.

Definition re_sub_ws3 (s : string) : string := re_sub_ws3_go "" s.

Fixpoint lstrip (s : string) : string :=
  match s with
  | "" => ""
  | String c s' => if is_space c then lstrip s' else s
  end.

(** [s.rstrip()]: the result keeps a character iff a non-space follows or it
    is itself not a space. *)
Fixpoint rstrip (s : string) : string :=
  match s with
  | "" => ""
  | String c s' =>
      match rstrip s' with
      | "" => if is_space c then "" else String c ""
      | t => String c t
      end
  end.

(** [s.strip()] *)
Definition strip (s : string) : string := rstrip (lstrip s).

(** ** Claim linking (inside [extract_claims_and_sources]) *)

(** [source.id = f"source-{report_id}-{i}"] for [i, source] in
    [enumerate(sources)]. *)
Definition assign_source_ids (report_id : string) (sources : list Source.t)
    : list Source.t :=
  imap (λ i source,
          Source.set_id ("source-" +:+ report_id +:+ "-" +:+ pretty i) source)
       sources.

(** [claim.id = f"claim-{report_id}-{i}"] *)
Definition assign_claim_ids (report_id : string) (claims : list Claim.t)
    : list Claim.t :=
  imap (λ i claim,
          Claim.set_id ("claim-" +:+ report_id +:+ "-" +:+ pretty i) claim)
       claims.

(** [{source.url: source.id for source in sources}]: the comprehension
    inserts in list order, so a later source overwrites an earlier one with
    the same URL. *)
Definition url_to_source_id (sources : list Source.t) : gmap string string :=
  foldl (λ d source, <[Source.url source := Source.id source]> d) ∅ sources.

(** The two comprehensions that compute [claim.source_ids]: first
    [url_to_source_id.get(url)] for the URLs that are keys, then the
    entries that are not [None]. *)
Definition link_source_ids (d : gmap string string) (source_urls : list string)
    : list string :=
  let source_ids : list (option string) :=
    (λ url, d !! url) <$> filter (λ url, is_Some (d !! url)) source_urls in
  omap (λ source_id, source_id) source_ids.

Definition link_claims (sources : list Source.t) (claims : list Claim.t)
    : list Claim.t :=
  let url_to_source_id := url_to_source_id sources in
  (λ claim,
     Claim.set_source_ids
       (link_source_ids url_to_source_id (Claim.source_urls claim)) claim)
  <$> claims.

(** ** Evidence selection and fallback verdicts (inside [validate_claim]) *)

(** [s.id in claim.source_ids and s.content and
    not s.content.startswith("Error")] *)
Definition is_claim_source (claim : Claim.t) (s : Source.t) : bool :=
  bool_decide (Source.id s ∈ Claim.source_ids claim)
  && match Source.content s with
     | None => false
     | Some c => negb (String.eqb c "") && negb (startswith "Error" c)
     end.

Definition claim_sources (claim : Claim.t) (sources : list Source.t)
    : list Source.t :=
  filter (λ s, is_claim_source claim s = true) sources.

Definition no_sources_result (claim : Claim.t) : ValidationResult.t :=
  ValidationResult.mk
    (Claim.id claim) (Claim.statement claim) (Claim.verification_question claim)
    UNVERIFIABLE 0
    "No valid source content available for this claim after fetching."
    false.

Definition error_result (claim : Claim.t) (e : string) : ValidationResult.t :=
  ValidationResult.mk
    (Claim.id claim) (Claim.statement claim) (Claim.verification_question claim)
    UNVERIFIABLE 0
    ("Validation failed due to an error: " +:+ e)
    false.

(** [f"SOURCE [{s.id}] {s.url}:\n{content}"] joined by blank lines. *)
Definition sources_text (claim_sources : list Source.t) : string :=
  join (nl +:+ nl)
    ((λ s,
        let content :=
          match Source.content s with
          | Some c => if String.eqb c "" then "[NO CONTENT]" else c
          | None => "[NO CONTENT]"
          end in
        "SOURCE [" +:+ Source.id s +:+ "] " +:+ Source.url s +:+ ":" +:+ nl
        +:+ content)
     <$> claim_sources).

(** [messages=[{"role": ..., "content": ...}, ...]] *)
Definition Messages := list (string * string).

Definition extractor_system_prompt : string :=
  "Extract verifiable claims and their associated sources from this research report.

                 For each claim:
                 1. Extract the exact statement from the text
                 2. Create a verification question that precisely addresses what needs to be verified
                 3. Identify which URLs from the sources are referenced by this claim

                 Extract all sources (URLs) referenced in the document.

                 Only include factual claims that can be objectively verified.
                 Focus on claims with explicit source references.".

Definition extractor_messages (report_text : string) : Messages :=
  [("system", extractor_system_prompt); ("user", report_text)].

Definition validator_system_prompt : string :=
  "You are a meticulous fact-checker. Assess whether the claim is supported by the provided source excerpts ONLY. Do not use external knowledge.

                 Possible statuses:
                 - SUPPORTED: The claim is directly and fully supported by the text in one or more sources.
                 - PARTIALLY_SUPPORTED: The claim is partially supported, or supported with significant caveats or missing details mentioned in the claim.
                 - CONTRADICTED: The sources contain information that directly contradicts the claim.
                 - UNVERIFIABLE: There is not enough information in the provided source excerpts to verify or contradict the claim.

                 Provide a confidence score (0.0 to 1.0) reflecting your certainty based *only* on the provided text.
                 Explain your reasoning clearly, citing specific source IDs (e.g., [source-xyz-1]) where possible.
                 If different sources present conflicting information relevant to the claim, note this in the reasoning and set 'has_contradictions' to true.".

Definition validator_messages (claim : Claim.t) (sources_text : string)
    : Messages :=
  [("system", validator_system_prompt);
   ("user",
    "Please validate the following claim based *only* on the provided source excerpts:

                 CLAIM: " +:+ Claim.statement claim +:+ "

                 VERIFICATION QUESTION: " +:+ Claim.verification_question claim +:+ "

                 SOURCE EXCERPTS:
                 --- START OF SOURCES ---
                 " +:+ sources_text +:+ "
                 --- END OF SOURCES ---

                 Analyze whether this claim is supported, partially supported, contradicted, or unverifiable based *solely* on these excerpts. Provide reasoning and confidence.")].

(** ** Report generation: the tally dictionary *)

Definition status_counts_init : gmap string Z :=
  <["UNVERIFIABLE" := 0%Z]>
  (<["CONTRADICTED" := 0%Z]>
  (<["PARTIALLY_SUPPORTED" := 0%Z]>
  (<["SUPPORTED" := 0%Z]> ∅))).

(** ** Source retrieval: the sentinel strings *)

Definition fetch_error_prefix (url : string) : string :=
  "Error fetching content from " +:+ url.

(** ** Effects: exceptions, the world and the capabilities *)

(** The result of running Python code: a value, or an [Exception] (kept as
    its [str]). *)
Inductive Outcome (A : Type) : Type :=
| Returns (a : A)
| Raises (e : string).
Arguments Returns {A} a.
Arguments Raises {A} e.

(** One entry per capability invocation. *)
Inductive Call :=
| ExtractorCall (messages : Messages)
| ScrapeCall (url : string)
| ValidatorCall (messages : Messages).

(** The environment of a run: randomness and the clock. *)
Class Env (W : Type) := {
  uuid4 : W → string * W;
  datetime_now_isoformat : W → string * W
}.

Section Pipeline.
Context {W : Type} `{!Env W}.

Record State := mkState { world : W; trace : list Call }.

Definition M (A : Type) : Type := State → Outcome A * State.

Definition ret {A} (a : A) : M A := λ st, (Returns a, st).

Definition bind {A B} (m : M A) (f : A → M B) : M B :=
  λ st, match m st with
        | (Returns a, st') => f a st'
        | (Raises e, st') => (Raises e, st')
        end.

Definition raise {A} (e : string) : M A := λ st, (Raises e, st).

(** [try: body  except Exception as e: handler(e)] *)
Definition try_except {A} (body : M A) (handler : string → M A) : M A :=
  λ st, match body st with
        | (Returns a, st') => (Returns a, st')
        | (Raises e, st') => handler e st'
        end.

(** Reading the environment does not count as a capability call. *)
Definition env {A} (f : W → A * W) : M A :=
  λ st, let '(a, w) := f (world st) in (Returns a, mkState w (trace st)).

(** A capability invocation: run the oracle on the world, log the call. *)
Definition invoke {A} (c : Call) (f : W → Outcome A * W) : M A :=
  λ st, let '(r, w) := f (world st) in (r, mkState w (trace st ++ [c])%list).

(** [client.chat.completions.create(response_model=ExtractedReport, ...)] *)
Definition ExtractorClient := Messages → W → Outcome ExtractedReport.t * W.

(** [client.chat.completions.create(response_model=ValidationResult, ...,
    max_retries=1)]; the retry is internal to the client. *)
Definition ValidatorClient := Messages → W → Outcome ValidationResult.t * W.

(** [firecrawl_app.scrape_url(url, params={"formats": ["markdown"]})]: the
    response is [None] or a dictionary. *)
Definition FirecrawlApp := string → W → Outcome (option (gmap string string)) * W.

#[global] Instance M_ret : MRet M := @ret.
#[global] Instance M_bind : MBind M := λ A B f m, bind m f.

(** *** Extraction *)

Definition extract_claims_and_sources
    (report_text : string) (extractor_client : ExtractorClient)
    : M (option ExtractedReport.t) :=
  u ← env uuid4;
  let report_id := str_take 8 u in
  try_except
    (result ← invoke (ExtractorCall (extractor_messages report_text))
                     (extractor_client (extractor_messages report_text));
     let sources := assign_source_ids report_id (ExtractedReport.sources result) in
     let claims := assign_claim_ids report_id (ExtractedReport.claims result) in
     let claims := link_claims sources claims in
     mret (Some (ExtractedReport.mk claims sources)))
    (λ e, mret None).

(** *** Source retrieval *)

(** The body of the loop of [fetch_sources] for one source.  An empty
    dictionary is falsy and has no ["markdown"] key either, so both tests of
    [result and "markdown" in result] are the lookup. *)
Definition fetch_source (firecrawl_app : FirecrawlApp) (source : Source.t)
    : M Source.t :=
  try_except
    (result ← invoke (ScrapeCall (Source.url source))
                     (firecrawl_app (Source.url source));
     match result ≫= (λ d, d !! "markdown") with
     | Some markdown =>
         let cleaned_content := strip (re_sub_ws3 markdown) in
         mret (Source.set_content cleaned_content source)
     | None =>
         mret (Source.set_content
                 (fetch_error_prefix (Source.url source)
                  +:+ ". Firecrawl returned empty or invalid data.") source)
     end)
    (λ e,
       mret (Source.set_content
               (fetch_error_prefix (Source.url source) +:+ ": " +:+ e) source)).

Fixpoint fetch_sources_loop (firecrawl_app : FirecrawlApp)
    (sources fetched_sources : list Source.t) : M (list Source.t) :=
  match sources with
  | [] => mret fetched_sources
  | source :: rest =>
      source ← fetch_source firecrawl_app source;
      fetch_sources_loop firecrawl_app rest (fetched_sources ++ [source])%list
  end.

(** [firecrawl_app] is [None] when the client was never initialised. *)
Definition fetch_sources (sources : list Source.t)
    (firecrawl_app : option FirecrawlApp) : M (list Source.t) :=
  match firecrawl_app with
  | None => mret sources
  | Some app => fetch_sources_loop app sources []
  end.

(** *** Claim validation *)

Definition validate_claim (claim : Claim.t) (sources : list Source.t)
    (validator_client : ValidatorClient) : M (option ValidationResult.t) :=
  let claim_sources := claim_sources claim sources in
  match claim_sources with
  | [] => mret (Some (no_sources_result claim))
  | _ =>
      let sources_text := sources_text claim_sources in
      let messages := validator_messages claim sources_text in
      try_except
        (result ← invoke (ValidatorCall messages) (validator_client messages);
         let result := ValidationResult.set_claim_id (Claim.id claim) result in
         let result :=
           ValidationResult.set_statement (Claim.statement claim) result in
         let result :=
           ValidationResult.set_verification_question
             (Claim.verification_question claim) result in
         mret (Some result))
        (λ e, mret (Some (error_result claim e)))
  end.

Fixpoint validate_all_claims_loop (claims : list Claim.t)
    (sources : list Source.t) (validator_client : ValidatorClient)
    (results : list ValidationResult.t) : M (list ValidationResult.t) :=
  match claims with
  | [] => mret results
  | claim :: rest =>
      result ← validate_claim claim sources validator_client;
      let results :=
        match result with
        | Some r => (results ++ [r])%list
        | None => results
        end in
      validate_all_claims_loop rest sources validator_client results
  end.

Definition validate_all_claims (claims : list Claim.t)
    (sources : list Source.t) (validator_client : ValidatorClient)
    : M (list ValidationResult.t) :=
  validate_all_claims_loop claims sources validator_client [].

(** *** Report generation *)

(** [status_counts[key] += 1]; a missing key is a [KeyError]. *)
Definition dict_incr (key : string) (d : gmap string Z) : M (gmap string Z) :=
  match d !! key with
  | Some n => mret (<[key := (n + 1)%Z]> d)
  | None => raise ("KeyError: " +:+ key)
  end.

Fixpoint tally (validation_results : list ValidationResult.t)
    (status_counts : gmap string Z) : M (gmap string Z) :=
  match validation_results with
  | [] => mret status_counts
  | result :: rest =>
      status_counts ←
        dict_incr (status_str (ValidationResult.status result)) status_counts;
      tally rest status_counts
  end.

Definition generate_trust_report
    (validation_results : list ValidationResult.t) : M TrustReport.t :=
  status_counts ← tally validation_results status_counts_init;
  let has_contradictions :=
    existsb ValidationResult.has_contradictions validation_results in
  let trust_score := calculate_trust_score validation_results in
  u ← env uuid4;
  timestamp ← env datetime_now_isoformat;
  mret (TrustReport.mk (str_take 8 u) timestamp trust_score
          (Z.of_nat (length validation_results)) status_counts
          has_contradictions).

(** *** End-to-end pipeline *)

(** [fetch_sources] assigns [content] on the very objects held by
    [extracted.sources]; the report returned at the end therefore shows the
    fetched sources. *)
Definition validate_report (report_text : string)
    (extractor_client : ExtractorClient) (validator_client : ValidatorClient)
    (firecrawl_app : option FirecrawlApp)
    : M (option (TrustReport.t * list ValidationResult.t * ExtractedReport.t)) :=
  extracted ← extract_claims_and_sources report_text extractor_client;
  match extracted with
  | None => mret None
  | Some extracted =>
      match ExtractedReport.claims extracted with
      | [] => mret None
      | _ =>
          sources_with_content ←
            match ExtractedReport.sources extracted with
            | [] => mret []
            | _ => fetch_sources (ExtractedReport.sources extracted) firecrawl_app
            end;
          let extracted :=
            ExtractedReport.mk (ExtractedReport.claims extracted)
                               sources_with_content in
          validation_results ←
            validate_all_claims (ExtractedReport.claims extracted)
                                sources_with_content validator_client;
          match validation_results with
          | [] => mret None
          | _ =>
              trust_report ← generate_trust_report validation_results;
              mret (Some (trust_report, validation_results, extracted))
          end
      end
  end.

End Pipeline.

(** ** The scorer as the specification words it *)

Definition spec_weight (s : Status) : Q :=
  match s with
  | SUPPORTED => 1
  | PARTIALLY_SUPPORTED => 1 # 2
  | CONTRADICTED => 0
  | UNVERIFIABLE => 1 # 5
  end.

(** The number of results flagged [has_contradictions]. *)
Definition flagged (rs : list ValidationResult.t) : nat :=
  length (filter (λ r, ValidationResult.has_contradictions r = true) rs).

Definition spec_base (rs : list ValidationResult.t) : Q :=
  (foldr (λ r acc, spec_weight (ValidationResult.status r) + acc) 0 rs
   / inject_Z (Z.of_nat (length rs)) * 100)%Q.

Definition spec_penalty (rs : list ValidationResult.t) : Z :=
  Z.min 20 (5 * Z.of_nat (flagged rs)).


(** The penalty the scorer subtracts: none unless some result is flagged. *)
Definition applied_penalty (rs : list ValidationResult.t) : Z :=
  let c := contradictions_within_claim rs in
  if (0 <? c)%Z then contradiction_penalty c else 0%Z.

(** Two result lists that agree on everything the verdict carries except,
    possibly, more flags in the second. *)
Definition more_flagged (r1 r2 : ValidationResult.t) : Prop :=
  ValidationResult.status r1 = ValidationResult.status r2
  ∧ (ValidationResult.has_contradictions r1 = true
     → ValidationResult.has_contradictions r2 = true).

(** Two results with the same verdict, whatever the confidence and the
    informational fields. *)
Definition same_verdict (r1 r2 : ValidationResult.t) : Prop :=
  ValidationResult.status r1 = ValidationResult.status r2
  ∧ ValidationResult.has_contradictions r1
    = ValidationResult.has_contradictions r2.

(** ** Evidence selection as the specification words it *)

(** Non-empty content that does not start with the fetch-error sentinel
    ["Error fetching content from {url}"] of the source. *)
Definition spec_is_evidence (claim : Claim.t) (s : Source.t) : bool :=
  bool_decide (Source.id s ∈ Claim.source_ids claim)
  && match Source.content s with
     | None => false
     | Some c =>
         negb (String.eqb c "")
         && negb (startswith (fetch_error_prefix (Source.url s)) c)
     end.

Definition spec_evidence (claim : Claim.t) (sources : list Source.t)
    : list Source.t :=
  filter (λ s, spec_is_evidence claim s = true) sources.

(** What the validator's filter admits, as a proposition. *)
Definition usable (claim : Claim.t) (s : Source.t) : Prop :=
  Source.id s ∈ Claim.source_ids claim
  ∧ ∃ c, Source.content s = Some c ∧ c ≠ "" ∧ startswith "Error" c = false.

(** The identity fields of a result are those of the claim it answers. *)
Definition answers (claim : Claim.t) (r : ValidationResult.t) : Prop :=
  ValidationResult.claim_id r = Claim.id claim
  ∧ ValidationResult.statement r = Claim.statement claim
  ∧ ValidationResult.verification_question r
    = Claim.verification_question claim.

(** The fallback verdict. *)
Definition unverifiable (r : ValidationResult.t) : Prop :=
  ValidationResult.status r = UNVERIFIABLE
  ∧ ValidationResult.confidence r = 0%Q
  ∧ ValidationResult.has_contradictions r = false.

(** The capability's answer with the identity fields taken from the claim,
    as [validate_claim] returns it. *)
Definition stamped (claim : Claim.t) (result : ValidationResult.t)
    : ValidationResult.t :=
  ValidationResult.set_verification_question (Claim.verification_question claim)
    (ValidationResult.set_statement (Claim.statement claim)
       (ValidationResult.set_claim_id (Claim.id claim) result)).

(** The messages [validate_claim] sends for a claim. *)
Definition claim_messages (claim : Claim.t) (sources : list Source.t)
    : Messages :=
  validator_messages claim (sources_text (claim_sources claim sources)).

(** The number of results with a given status. *)
Definition count_status (s : Status) (rs : list ValidationResult.t) : nat :=
  length (filter (λ r, ValidationResult.status r = s) rs).

(** The four keys of the tally. *)
Definition status_keys : gset string :=
  {[ "SUPPORTED"; "PARTIALLY_SUPPORTED"; "CONTRADICTED"; "UNVERIFIABLE" ]}.

(** The sum of the four counts of a tally. *)
Definition counts_total (d : gmap string Z) : Z :=
  (default 0 (d !! "SUPPORTED") + default 0 (d !! "PARTIALLY_SUPPORTED")
   + default 0 (d !! "CONTRADICTED") + default 0 (d !! "UNVERIFIABLE"))%Z.

(** What retrieval leaves in a source, given the scraper's response to its
    URL: the cleaned text, or one of the two sentinels. *)
Definition retrieved (source : Source.t)
    (response : Outcome (option (gmap string string))) (fetched : Source.t)
    : Prop :=
  Source.id fetched = Source.id source
  ∧ Source.url fetched = Source.url source
  ∧ Source.title fetched = Source.title source
  ∧ match response with
    | Returns result =>
        match result ≫= (λ d, d !! "markdown") with
        | Some markdown =>
            Source.content fetched = Some (strip (re_sub_ws3 markdown))
        | None =>
            Source.content fetched
            = Some (fetch_error_prefix (Source.url source)
                    +:+ ". Firecrawl returned empty or invalid data.")
        end
    | Raises e =>
        Source.content fetched
        = Some (fetch_error_prefix (Source.url source) +:+ ": " +:+ e)
    end.

(** ** The retrieval step of the pipeline *)

(** From state [st1] the pipeline hands [srcs] to the validator in state
    [st2]: nothing is fetched when extraction found no sources. *)
Definition retrieval_step {W : Type} (sources : list Source.t)
    (firecrawl_app : option (@FirecrawlApp W)) (st1 : @State W)
    (srcs : list Source.t) (st2 : @State W) : Prop :=
  match sources with
  | [] => srcs = [] ∧ st2 = st1
  | _ => fetch_sources sources firecrawl_app st1 = (Returns srcs, st2)
  end.

(** ** Shapes of strings, to state what cleaning achieves *)

Fixpoint all_space (s : string) : bool :=
  match s with
  | "" => true
  | String c s' => is_space c && all_space s'
  end.

(** Empty, or beginning with a character that is not whitespace. *)
Definition head_not_space (s : string) : bool :=
  match s with
  | "" => true
  | String c _ => negb (is_space c)
  end.

(** Empty, or ending with a character that is not whitespace. *)
Fixpoint last_not_space (s : string) : bool :=
  match s with
  | "" => true
  | String c "" => negb (is_space c)
  | String _ s' => last_not_space s'
  end.

(** No whitespace run reaches length 3, [k] whitespace characters having
    just been read. *)
Fixpoint no_ws3_from (k : nat) (s : string) : bool :=
  match s with
  | "" => true
  | String c s' =>
      if is_space c then (k <? 2)%nat && no_ws3_from (S k) s'
      else no_ws3_from 0 s'
  end.

(** ** Client initialisation ([initialize_clients]) *)

Section Clients.
Context {W : Type}.

(** The constructors [initialize_clients] calls, each of which may raise:
    [instructor.from_gemini] on the extraction model and on the validation
    model, and [FirecrawlApp(api_key=...)]. *)
Record ClientFactory := mkFactory {
  make_extractor : W → Outcome (@ExtractorClient W) * W;
  make_validator : W → Outcome (@ValidatorClient W) * W;
  make_firecrawl : string → W → Outcome (@FirecrawlApp W) * W
}.

(** Running a constructor: it may change the world and may raise, and it is
    not a capability call. *)
Definition construct {A} (f : W → Outcome A * W) : M A :=
  λ st, let '(r, w) := f (world st) in (r, mkState w (trace st)).

(** The one [try] block assigns the three clients in turn; when a
    constructor raises, the clients assigned before it keep their value and
    [api_keys_valid] stays [False].  Each handler below returns the locals as
    they stand at that point. *)
Definition initialize_clients (factory : ClientFactory)
    (gemini_key firecrawl_key : string)
    : M (bool * option (@ExtractorClient W) * option (@ValidatorClient W)
         * option (@FirecrawlApp W)) :=
  if negb (String.eqb gemini_key "") && negb (String.eqb firecrawl_key "") then
    try_except
      (extractor_client ← construct (make_extractor factory);
       try_except
         (validator_client ← construct (make_validator factory);
          try_except
            (firecrawl_app ← construct (make_firecrawl factory firecrawl_key);
             mret (true, Some extractor_client, Some validator_client,
                   Some firecrawl_app))
            (λ e, mret (false, Some extractor_client, Some validator_client,
                        None)))
         (λ e, mret (false, Some extractor_client, None, None)))
      (λ e, mret (false, None, None, None))
  else mret (false, None, None, None).

End Clients.

(** ** The results table of the application ([main] in [app.py]) *)

(** The label [main] gives a source: ["Fetched"] under the very test the
    validator's filter applies to content.  Every [Source] has a [content]
    attribute, so the third label of the code is never chosen. *)
Definition fetch_status (source : Source.t) : string :=
  match Source.content source with
  | Some c =>
      if negb (String.eqb c "") && negb (startswith "Error" c) then "Fetched"
      else "Fetch Error/Empty"
  | None => "Fetch Error/Empty"
  end.

(** [source_fetch_status], filled in source order. *)
Definition source_fetch_status (sources : list Source.t) : gmap string string :=
  foldl (λ d source, <[Source.id source := fetch_status source]> d) ∅ sources.

(** [{claim.id: claim.source_ids for claim in extracted.claims}] *)
Definition claim_id_to_source_ids (claims : list Claim.t)
    : gmap string (list string) :=
  foldl (λ d claim, <[Claim.id claim := Claim.source_ids claim]> d) ∅ claims.

(** [{claim.id: claim.source_urls for claim in extracted.claims}] *)
Definition claim_id_to_source_urls (claims : list Claim.t)
    : gmap string (list string) :=
  foldl (λ d claim, <[Claim.id claim := Claim.source_urls claim]> d) ∅ claims.

(** [claim_id_to_source_ids.get(r.claim_id, [])] *)
Definition source_ids_for_claim (claims : list Claim.t)
    (r : ValidationResult.t) : list string :=
  default [] (claim_id_to_source_ids claims !! ValidationResult.claim_id r).

(** [claim_id_to_source_urls.get(r.claim_id, [])] *)
Definition source_urls_for_claim (claims : list Claim.t)
    (r : ValidationResult.t) : list string :=
  default [] (claim_id_to_source_urls claims !! ValidationResult.claim_id r).

(** The column "Sources Cited": [len(source_ids_for_claim)]. *)
Definition num_sources (claims : list Claim.t) (r : ValidationResult.t) : nat :=
  length (source_ids_for_claim claims r).

(** The column "Valid Sources Used": the number of entries of
    [source_ids_for_claim] whose status is ["Fetched"]. *)
Definition num_valid_sources (claims : list Claim.t) (sources : list Source.t)
    (r : ValidationResult.t) : nat :=
  length (filter (λ src_id,
                    source_fetch_status sources !! src_id = Some "Fetched")
                 (source_ids_for_claim claims r)).

(** The lines under "Sources Used for this Claim": the ids zipped with the
    URLs, each with [source_fetch_status.get(src_id, "Unknown")]. *)
Definition source_lines (claims : list Claim.t) (sources : list Source.t)
    (r : ValidationResult.t) : list (string * string * string) :=
  (λ p, (p.1, p.2, default "Unknown" (source_fetch_status sources !! p.1)))
  <$> zip (source_ids_for_claim claims r) (source_urls_for_claim claims r).

(** ** Relations between result lists, for the scorer *)

(** Pointwise, the second verdict weighs at least as much as the first and
    carries the same flag. *)
Definition no_worse (r1 r2 : ValidationResult.t) : Prop :=
  (weights_get (ValidationResult.status r1)
   <= weights_get (ValidationResult.status r2))%Q
  ∧ ValidationResult.has_contradictions r1
    = ValidationResult.has_contradictions r2.

(** The weight of a status as a percentage. *)
Definition weight_percent (s : Status) : Z :=
  match s with
  | SUPPORTED => 100
  | PARTIALLY_SUPPORTED => 50
  | CONTRADICTED => 0
  | UNVERIFIABLE => 20
  end.

(** The cleaning applied to scraped text. *)
Definition clean (markdown : string) : string := strip (re_sub_ws3 markdown).

(** The characters of a string that are not whitespace, in order. *)
Fixpoint non_space (s : string) : string :=
  match s with
  | "" => ""
  | String c s' => if is_space c then non_space s' else String c (non_space s')
  end.

(** The validator calls a batch makes: one per claim with evidence. *)
Definition validator_calls (claims : list Claim.t) (sources : list Source.t)
    : list Call :=
  (λ claim, ValidatorCall (claim_messages claim sources))
  <$> filter (λ claim, claim_sources claim sources ≠ []) claims.

(** A scraper response from which no text is obtained: an exception, no
    markdown entry, or markdown that is whitespace only. *)
Definition unusable_response (response : Outcome (option (gmap string string)))
    : Prop :=
  match response with
  | Raises _ => True
  | Returns result =>
      match result ≫= (λ d, d !! "markdown") with
      | None => True
      | Some markdown => all_space markdown = true
      end
  end.

(** The scraper calls retrieval makes with a given client. *)
Definition scrape_calls {W : Type} (firecrawl_app : option (@FirecrawlApp W))
    (sources : list Source.t) : list Call :=
  match firecrawl_app with
  | Some _ => (λ s, ScrapeCall (Source.url s)) <$> sources
  | None => []
  end.

(** Extraction changes nothing in a claim but [id] and [source_ids]. *)
Definition same_claim_text (c c' : Claim.t) : Prop :=
  Claim.statement c' = Claim.statement c
  ∧ Claim.verification_question c' = Claim.verification_question c
  ∧ Claim.source_urls c' = Claim.source_urls c.

(** Extraction changes nothing in a source but [id]. *)
Definition same_source_data (s s' : Source.t) : Prop :=
  Source.url s' = Source.url s
  ∧ Source.title s' = Source.title s
  ∧ Source.content s' = Source.content s.

(** A claim as extraction returns it, against the claim [raw] the capability
    gave and the returned sources: the text and the cited URLs are kept, and
    [source_ids] is the image of the cited URLs under the URL-to-id
    dictionary, misses dropped, every id being the id of a source. *)
Definition linked_from (sources : list Source.t) (raw claim : Claim.t) : Prop :=
  Claim.statement claim = Claim.statement raw
  ∧ Claim.verification_question claim = Claim.verification_question raw
  ∧ Claim.source_urls claim = Claim.source_urls raw
  ∧ Claim.source_ids claim
    = omap (λ url, url_to_source_id sources !! url) (Claim.source_urls raw)
  ∧ ∀ id, id ∈ Claim.source_ids claim →
          ∃ s, s ∈ sources ∧ Source.id s = id.

(** A claim after linking, against the claim given to linking, when the
    source [first] is shadowed by the later source [last] with the same
    URL. *)
Definition linked_to_last (sources : list Source.t) (first last : Source.t)
    (claim linked : Claim.t) : Prop :=
  Claim.id linked = Claim.id claim
  ∧ Claim.source_urls linked = Claim.source_urls claim
  ∧ Claim.source_ids linked
    = omap (λ url, url_to_source_id sources !! url) (Claim.source_urls claim)
  ∧ Source.id first ∉ Claim.source_ids linked
  ∧ (Source.url last ∈ Claim.source_urls claim →
     Source.id last ∈ Claim.source_ids linked).

(** ** Sample data and stub capabilities *)

(** The stub world counts the calls made into it. *)
#[global] Instance stub_env : Env nat := {|
  uuid4 w := ("1b9d6bcd-bbfd-4b2d-9b5d-ab8dfbbd4bed", S w);
  datetime_now_isoformat w := ("2025-03-01T12:00:00", S w)
|}.

Definition stub_state : @State nat := mkState 0%nat [].

Definition sample_result (s : Status) (confidence : Q) (flag : bool)
    : ValidationResult.t :=
  ValidationResult.mk "claim-x-0" "stmt" "question?" s confidence "because" flag.

(** A judgment stub that answers SUPPORTED with confidence 0.9 and reports
    identity fields of its own. *)
Definition stub_validator : @ValidatorClient nat :=
  λ _ w, (Returns (ValidationResult.mk "made-up" "other" "other?" SUPPORTED
                     (9 # 10) "ok [source-1b9d6bcd-0]" false), S w).

Definition failing_validator : @ValidatorClient nat :=
  λ _ w, (Raises "503 service unavailable", S w).

(** A scraper stub: one page, one empty response, one failure. *)
Definition stub_firecrawl : @FirecrawlApp nat :=
  λ url w,
    if String.eqb url "https://a.example/x" then
      (Returns (Some (<["markdown" := "  Title" +:+ nl +:+ nl +:+ nl +:+ "Body  "]> ∅)), S w)
    else if String.eqb url "https://b.example/y" then (Returns (Some ∅), S w)
    else (Raises "timeout", S w).

Definition sample_claim : Claim.t :=
  Claim.mk "claim-1b9d6bcd-0" "Error budgets shrank in 2020."
           "Did error budgets shrink in 2020?"
           ["https://a.example/x"] ["source-1b9d6bcd-0"].

(** A page that was fetched fine and whose text begins with the word
    "Error". *)
Definition error_page : Source.t :=
  Source.mk "source-1b9d6bcd-0" "https://a.example/x" None
            (Some "Error budgets shrank in 2020, the survey found.").

Definition unfetched_source : Source.t :=
  Source.mk "source-1b9d6bcd-0" "https://a.example/x" None None.

Definition failed_source : Source.t :=
  Source.mk "source-1b9d6bcd-0" "https://a.example/x" None
            (Some "Error fetching content from https://a.example/x: timeout").

Definition good_source : Source.t :=
  Source.mk "source-1b9d6bcd-0" "https://a.example/x" None
            (Some "Budgets shrank in 2020.").

(** What an extraction model may return: a claim citing one listed and one
    unlisted URL, and a source list naming one URL twice. *)
Definition sample_raw_claims : list Claim.t :=
  [Claim.mk "" "Budgets shrank." "Did budgets shrink?"
            ["https://a.example/x"; "https://nowhere.example"] []].

Definition sample_raw_sources : list Source.t :=
  [Source.mk "" "https://a.example/x" None None;
   Source.mk "" "https://c.example/z" None None;
   Source.mk "" "https://a.example/x" (Some "again") None].

Definition stub_extractor : @ExtractorClient nat :=
  λ _ w, (Returns (ExtractedReport.mk sample_raw_claims sample_raw_sources), S w).

Definition failing_extractor : @ExtractorClient nat :=
  λ _ w, (Raises "malformed response", S w).

(** [n] flagged results followed by [m] unflagged ones. *)
Definition flagged_results (n m : nat) : list ValidationResult.t :=
  (replicate n (sample_result SUPPORTED (9 # 10) true)
   ++ replicate m (sample_result SUPPORTED (9 # 10) false))%list.

(** The same two verdicts, reported with different confidence and
    reasoning. *)
Definition verdicts_confident : list ValidationResult.t :=
  [ValidationResult.mk "c0" "s0" "q0" SUPPORTED (99 # 100) "certain" true;
   ValidationResult.mk "c1" "s1" "q1" UNVERIFIABLE (9 # 10) "nothing found" false].

Definition verdicts_hesitant : list ValidationResult.t :=
  [ValidationResult.mk "c0" "s0" "q0" SUPPORTED (1 # 10) "perhaps" true;
   ValidationResult.mk "c1" "s1" "q1" UNVERIFIABLE 0 "" false].

(** Two claims: the first cites a source whose fetch failed, the second a
    source with content. *)
Definition cold_claim : Claim.t :=
  Claim.mk "claim-1b9d6bcd-1" "Budgets grew in 2021." "Did budgets grow in 2021?"
           ["https://c.example/z"] ["source-1b9d6bcd-1"].

Definition sample_claims : list Claim.t := [cold_claim; sample_claim; cold_claim].

Definition sample_sources : list Source.t :=
  [good_source;
   Source.mk "source-1b9d6bcd-1" "https://c.example/z" None
             (Some "Error fetching content from https://c.example/z: timeout")].

(** The two verdicts of [verdicts_confident], the second one upgraded. *)
Definition verdicts_upgraded : list ValidationResult.t :=
  [ValidationResult.mk "c0" "s0" "q0" SUPPORTED (99 # 100) "certain" true;
   ValidationResult.mk "c1" "s1" "q1" PARTIALLY_SUPPORTED (1 # 2) "partly" false].

(** A factory whose three constructors succeed with the stub clients. *)
Definition stub_factory : @ClientFactory nat :=
  mkFactory (λ w, (Returns stub_extractor, S w))
            (λ w, (Returns stub_validator, S w))
            (λ _ w, (Returns stub_firecrawl, S w)).

(** An extraction that finds a claim and no source at all. *)
Definition sourceless_extractor : @ExtractorClient nat :=
  λ _ w, (Returns (ExtractedReport.mk
                     [Claim.mk "" "Budgets shrank." "Did budgets shrink?" [] []]
                     []), S w).

(** A claim citing a URL that no source has. *)
Definition orphan_claim : Claim.t :=
  Claim.mk "claim-1b9d6bcd-2" "Nobody knows." "Does anybody know?"
           ["https://nowhere.example"] [].

(** A claim citing an unknown URL before a known one, as linked against
    [sample_sources]. *)
Definition shifted_claim : Claim.t :=
  Claim.mk "claim-1b9d6bcd-3" "Budgets shrank." "Did budgets shrink?"
           ["https://nowhere.example"; "https://a.example/x"]
           ["source-1b9d6bcd-0"].

(** A result that answers [sample_claim]. *)
Definition sample_answer : ValidationResult.t :=
  ValidationResult.mk "claim-1b9d6bcd-0" "Error budgets shrank in 2020."
                      "Did error budgets shrink in 2020?" SUPPORTED (9 # 10)
                      "ok" false.

(** A result that answers [shifted_claim]. *)
Definition shifted_answer : ValidationResult.t :=
  ValidationResult.mk "claim-1b9d6bcd-3" "Budgets shrank."
                      "Did budgets shrink?" SUPPORTED (9 # 10) "ok" false.

(** ** Retrieval as the specification words its outcome *)

(** Retrieval returns, and every source it returns has content. *)
Definition spec_all_fetched (sources : list Source.t)
    (firecrawl_app : option (@FirecrawlApp nat)) (st : @State nat) : Prop :=
  ∃ fetched st',
    fetch_sources sources firecrawl_app st = (Returns fetched, st')
    ∧ Forall (λ s, Source.content s ≠ None) fetched.

(** * Properties *)

Local Open Scope list_scope.

(** ** Trust scorer *)

Section Scorer.
Local Open Scope Q_scope.

Lemma weights_get_spec s : weights_get s = spec_weight s.
Proof. destruct s; vm_compute; reflexivity. Qed.

Lemma spec_weight_nonneg s : 0 <= spec_weight s.
Proof. destruct s; simpl; discriminate. Qed.

Lemma score_sum_from acc rs :
  foldl (λ a r, a + weights_get (ValidationResult.status r)) acc rs
  == acc + foldr (λ r a, spec_weight (ValidationResult.status r) + a) 0 rs.
Proof.
  revert acc. induction rs as [|r rs IH]; intros acc; simpl.
  - ring.
  - rewrite IH, weights_get_spec. ring.
Qed.

Lemma score_sum_spec rs :
  score_sum rs
  == foldr (λ r a, spec_weight (ValidationResult.status r) + a) 0 rs.
Proof. unfold score_sum. rewrite score_sum_from. ring. Qed.

Lemma spec_sum_nonneg rs :
  0 <= foldr (λ r a, spec_weight (ValidationResult.status r) + a) 0 rs.
Proof.
  induction rs as [|r rs IH]; simpl; [discriminate|].
  pose proof (spec_weight_nonneg (ValidationResult.status r)) as Hw.
  replace 0 with (0 + 0) by reflexivity. apply Qplus_le_compat; assumption.
Qed.

Lemma contradictions_from acc rs :
  foldl (λ a r, if ValidationResult.has_contradictions r then a + 1 else a)%Z
        acc rs
  = (acc + Z.of_nat (flagged rs))%Z.
Proof.
  unfold flagged. revert acc. induction rs as [|r rs IH]; intros acc; simpl.
  - lia.
  - rewrite IH. rewrite filter_cons.
    destruct (ValidationResult.has_contradictions r); simpl.
    + destruct (decide (true = true)); [simpl; lia | congruence].
    + destruct (decide (false = true)); [congruence | lia].
Qed.

Lemma contradictions_flagged rs :
  contradictions_within_claim rs = Z.of_nat (flagged rs).
Proof. unfold contradictions_within_claim. rewrite contradictions_from. lia. Qed.

Lemma round_half_even_comp x y : x == y → round_half_even x = round_half_even y.
Proof.
  intros H. unfold round_half_even.
  rewrite (Qfloor_comp x y H).
  assert (Hc : (x - inject_Z (Qfloor y) ?= 1 # 2) = (y - inject_Z (Qfloor y) ?= 1 # 2)).
  { apply Qcompare_comp; [rewrite H|]; reflexivity. }
  rewrite Hc. reflexivity.
Qed.

#[local] Instance round1_comp : Proper (Qeq ==> Qeq) round1.
Proof.
  intros x y H. unfold round1.
  assert (H10 : x * 10 == y * 10) by (rewrite H; reflexivity).
  rewrite (round_half_even_comp _ _ H10). reflexivity.
Qed.



Lemma spec_base_nonneg rs : rs ≠ [] → 0 <= spec_base rs.
Proof.
  intros Hne. unfold spec_base.
  apply Qmult_le_0_compat; [|discriminate].
  apply Qle_shift_div_l.
  - change 0 with (inject_Z 0). rewrite <- Zlt_Qlt.
    destruct rs; [congruence | simpl; lia].
  - rewrite Qmult_0_l. apply spec_sum_nonneg.
Qed.

Lemma applied_penalty_spec rs : applied_penalty rs = spec_penalty rs.
Proof.
  unfold applied_penalty, spec_penalty, contradiction_penalty.
  rewrite contradictions_flagged.
  destruct (Z.ltb_spec 0 (Z.of_nat (flagged rs))); lia.
Qed.

(** The scorer, with the guards of the code resolved. *)
Lemma calculate_trust_score_unfold r rs :
  calculate_trust_score (r :: rs)
  == round1 (Qmax 0 (spec_base (r :: rs)
                     - inject_Z (applied_penalty (r :: rs)))).
Proof.
  unfold calculate_trust_score, applied_penalty.
  set (l := r :: rs).
  assert (Hl : (Z.of_nat (length l) =? 0)%Z = false).
  { apply Z.eqb_neq. subst l. simpl. lia. }
  rewrite Hl. cbv zeta.
  assert (Hb : score_sum l / inject_Z (Z.of_nat (length l)) * 100 == spec_base l).
  { unfold spec_base. rewrite score_sum_spec. reflexivity. }
  destruct (0 <? contradictions_within_claim l)%Z.
  - rewrite Hb. reflexivity.
  - rewrite Hb. apply round1_comp. symmetry.
    rewrite Q.max_r.
    + unfold Qminus. change (- inject_Z 0) with 0. ring.
    + unfold Qminus. change (- inject_Z 0) with 0. rewrite Qplus_0_r.
      apply spec_base_nonneg. subst l. discriminate.
Qed.

End Scorer.

Lemma same_verdict_score_sum rs1 rs2 :
  Forall2 same_verdict rs1 rs2 →
  ∀ acc,
    foldl (λ a r, a + weights_get (ValidationResult.status r))%Q acc rs1
    = foldl (λ a r, a + weights_get (ValidationResult.status r))%Q acc rs2.
Proof.
  induction 1 as [|r1 r2 l1 l2 [Hs _] _ IH]; intros acc; simpl; [done|].
  rewrite Hs. apply IH.
Qed.

Lemma same_verdict_contradictions rs1 rs2 :
  Forall2 same_verdict rs1 rs2 →
  ∀ acc,
    foldl (λ a r, if ValidationResult.has_contradictions r then a + 1 else a)%Z
          acc rs1
    = foldl (λ a r, if ValidationResult.has_contradictions r then a + 1 else a)%Z
            acc rs2.
Proof.
  induction 1 as [|r1 r2 l1 l2 [_ Hf] _ IH]; intros acc; simpl; [done|].
  rewrite Hf. apply IH.
Qed.


(** C8. The penalty the scorer subtracts is [min(20, 5 * n)], [n] being
    the number of results flagged [has_contradictions]: the score is the
    rounded, floored base minus that penalty; the penalty does not decrease
    when results gain flags, never exceeds 20, and is exactly 20 from four
    flagged results on. *)
Theorem contradiction_penalty_monotone_capped
    (rs1 rs2 : list ValidationResult.t) :
  Forall2 more_flagged rs1 rs2 →
  (applied_penalty rs1 ≤ applied_penalty rs2)%Z
  ∧ (applied_penalty rs2 ≤ 20)%Z
  ∧ applied_penalty rs2
    = contradiction_penalty (contradictions_within_claim rs2)
  ∧ applied_penalty rs2
    = (if (4 <=? contradictions_within_claim rs2)%Z then 20
       else 5 * contradictions_within_claim rs2)%Z
  ∧ (flagged rs1 ≤ flagged rs2)%nat
  ∧ contradictions_within_claim rs1 = Z.of_nat (flagged rs1)
  ∧ contradictions_within_claim rs2 = Z.of_nat (flagged rs2)
  ∧ applied_penalty rs1 = Z.min 20 (5 * Z.of_nat (flagged rs1))
  ∧ applied_penalty rs2 = Z.min 20 (5 * Z.of_nat (flagged rs2))
  ∧ ((4 ≤ flagged rs2)%nat → applied_penalty rs2 = 20%Z)
  ∧ (calculate_trust_score rs1
     == match rs1 with
        | [] => 0
        | _ => round1 (Qmax 0 (spec_base rs1 - inject_Z (applied_penalty rs1)))
        end)%Q
  ∧ (calculate_trust_score rs2
     == match rs2 with
        | [] => 0
        | _ => round1 (Qmax 0 (spec_base rs2 - inject_Z (applied_penalty rs2)))
        end)%Q.
Proof.
  intros H.
  assert (Hle : (flagged rs1 ≤ flagged rs2)%nat).
  { unfold flagged. induction H as [|r1 r2 l1 l2 [_ Hf] _ IH]; [done|].
    rewrite !filter_cons.
    destruct (decide (ValidationResult.has_contradictions r1 = true)) as [E1|E1].
    - rewrite decide_True by auto. simpl. lia.
    - destruct (decide (ValidationResult.has_contradictions r2 = true));
        simpl; lia. }
  assert (Hscore : ∀ rs,
    (calculate_trust_score rs
     == match rs with
        | [] => 0
        | _ => round1 (Qmax 0 (spec_base rs - inject_Z (applied_penalty rs)))
        end)%Q).
  { intros [|r rs]; [reflexivity | apply calculate_trust_score_unfold]. }
  assert (Hpen : ∀ rs, applied_penalty rs = Z.min 20 (5 * Z.of_nat (flagged rs))).
  { intros rs. by rewrite applied_penalty_spec. }
  repeat split; try apply Hscore; try apply Hpen;
    try apply contradictions_flagged; try exact Hle.
  all: rewrite ?Hpen; unfold contradiction_penalty;
       rewrite ?contradictions_flagged;
       try destruct (Z.leb_spec 4 (Z.of_nat (flagged rs2))); lia.
Qed.

(** C9. The score reads only [status] and [has_contradictions]: two lists
    that agree pointwise on these get the same score, whatever their
    confidences and other fields. *)
Theorem calculate_trust_score_ignores_confidence
    (rs1 rs2 : list ValidationResult.t) :
  Forall2 same_verdict rs1 rs2 →
  calculate_trust_score rs1 = calculate_trust_score rs2.
Proof.
  intros H.
  pose proof (same_verdict_score_sum _ _ H) as Hsum.
  pose proof (same_verdict_contradictions _ _ H) as Hcnt.
  pose proof (Forall2_length _ _ _ H) as Hlen.
  destruct H as [|r1 r2 l1 l2 _ _]; [done|].
  unfold calculate_trust_score, score_sum, contradictions_within_claim.
  rewrite (Hsum 0%Q), (Hcnt 0%Z), Hlen. reflexivity.
Qed.

(** ** Evidence selection and claim validation *)

Ltac run_m :=
  unfold mbind, M_bind, bind, mret, M_ret, ret, raise, try_except, invoke, env;
  simpl.

Lemma is_claim_source_usable claim s :
  is_claim_source claim s = true ↔ usable claim s.
Proof.
  unfold is_claim_source, usable.
  rewrite andb_true_iff, bool_decide_eq_true.
  destruct (Source.content s) as [c|].
  - rewrite andb_true_iff, !negb_true_iff, String.eqb_neq. split.
    + intros (Hid & Hne & Hp). split; [done|]. exists c. done.
    + intros (Hid & c' & [= <-] & Hne & Hp). done.
  - split; [intros [_ [=]] | intros (_ & c & [=] & _)].
Qed.

Lemma claim_sources_usable claim sources s :
  s ∈ claim_sources claim sources ↔ s ∈ sources ∧ usable claim s.
Proof.
  unfold claim_sources. rewrite list_elem_of_filter, is_claim_source_usable.
  tauto.
Qed.

(** Every sentinel written by source retrieval is rejected by the filter. *)
Lemma fetch_error_rejected url rest :
  startswith "Error" (fetch_error_prefix url +:+ rest) = true.
Proof. reflexivity. Qed.

Section Validation.
Context {W : Type}.
Implicit Types (st : @State W) (validator_client : @ValidatorClient W).

Lemma validate_claim_no_evidence claim sources validator_client st :
  claim_sources claim sources = [] →
  validate_claim claim sources validator_client st
  = (Returns (Some (no_sources_result claim)), st).
Proof. intros H. unfold validate_claim. rewrite H. reflexivity. Qed.

Lemma validate_claim_evidence claim sources validator_client st :
  claim_sources claim sources ≠ [] →
  validate_claim claim sources validator_client st
  = (Returns (Some
       match (validator_client (claim_messages claim sources) (world st)).1 with
       | Returns result => stamped claim result
       | Raises e => error_result claim e
       end),
     mkState (validator_client (claim_messages claim sources) (world st)).2
             (trace st ++ [ValidatorCall (claim_messages claim sources)])).
Proof.
  intros H. unfold validate_claim, claim_messages.
  destruct (claim_sources claim sources) as [|s l] eqn:E; [done|].
  run_m.
  destruct (validator_client _ (world st)) as [[result|e] w]; reflexivity.
Qed.

Lemma stamped_answers claim result : answers claim (stamped claim result).
Proof. repeat split. Qed.

Lemma validate_claim_returns claim sources validator_client st :
  ∃ r st',
    validate_claim claim sources validator_client st = (Returns (Some r), st')
    ∧ answers claim r.
Proof.
  destruct (decide (claim_sources claim sources = [])) as [E|E].
  - eexists _, _. split; [by apply validate_claim_no_evidence|]. repeat split.
  - eexists _, _. split; [by apply validate_claim_evidence|].
    destruct (validator_client _ _).1; repeat split.
Qed.

(** C2 (amended). The evidence list holds, in source order, exactly the
    sources whose id is among the claim's [source_ids] and whose content is
    non-empty and does not start with "Error"; when it is empty the
    validator answers UNVERIFIABLE with confidence 0.0 and no contradiction
    flag, and the state (hence the call trace) is unchanged: the judgment
    capability is not invoked. *)
Theorem validate_claim_evidence_set claim sources validator_client st :
  (∀ s, s ∈ claim_sources claim sources ↔ s ∈ sources ∧ usable claim s)
  ∧ claim_sources claim sources `sublist_of` sources
  ∧ (claim_sources claim sources = [] →
     ∃ r,
       validate_claim claim sources validator_client st = (Returns (Some r), st)
       ∧ unverifiable r ∧ answers claim r).
Proof.
  split; [|split].
  - intros s. apply claim_sources_usable.
  - apply sublist_filter.
  - intros H. exists (no_sources_result claim).
    split; [by apply validate_claim_no_evidence|]. repeat split.
Qed.

End Validation.

(** ** Validating a batch of claims *)

Section Batch.
Context {W : Type}.
Implicit Types (st : @State W) (validator_client : @ValidatorClient W).

(** The loop appends one answer per claim to whatever it was given, and
    what it appends does not depend on the accumulator. *)
Lemma validate_all_claims_loop_returns claims sources validator_client st :
  ∃ rs st',
    (∀ results,
       validate_all_claims_loop claims sources validator_client results st
       = (Returns (results ++ rs), st'))
    ∧ Forall2 answers claims rs.
Proof.
  revert st. induction claims as [|claim rest IH]; intros st.
  - exists [], st. split; [|constructor].
    intros results. simpl. rewrite app_nil_r. reflexivity.
  - destruct (validate_claim_returns claim sources validator_client st)
      as (r & st1 & Hr & Ha).
    destruct (IH st1) as (rs & st' & Hrs & Hall).
    exists (r :: rs), st'. split; [|by constructor].
    intros results. simpl. run_m. rewrite Hr.
    change (validate_all_claims_loop rest sources validator_client
              (results ++ [r]) st1 = (Returns (results ++ r :: rs), st')).
    rewrite Hrs, <- app_assoc. reflexivity.
Qed.

Lemma validate_all_claims_returns claims sources validator_client st :
  ∃ rs st',
    validate_all_claims claims sources validator_client st = (Returns rs, st')
    ∧ Forall2 answers claims rs.
Proof.
  destruct (validate_all_claims_loop_returns claims sources validator_client st)
    as (rs & st' & Hrs & Hall).
  exists rs, st'. split; [|done]. unfold validate_all_claims. apply Hrs.
Qed.

(** Running the loop over [pre ++ post] is running it over [pre] and then
    over [post] from the state and the results reached. *)
Lemma validate_all_claims_loop_app pre post sources validator_client results st :
  validate_all_claims_loop (pre ++ post) sources validator_client results st
  = match validate_all_claims_loop pre sources validator_client results st with
    | (Returns rs, st1) =>
        validate_all_claims_loop post sources validator_client rs st1
    | (Raises e, st1) => (Raises e, st1)
    end.
Proof.
  revert results st. induction pre as [|claim pre IH]; intros results st.
  - reflexivity.
  - simpl. run_m.
    destruct (validate_claim claim sources validator_client st) as [[o|e] st1];
      [|reflexivity].
    apply IH.
Qed.

(** C3. Whatever the judgment capability does, the batch returns one result
    per claim, in claim order, each carrying the claim's id, statement and
    question; and a claim whose capability call raises gets the
    UNVERIFIABLE, confidence 0.0 fallback at its own position while the
    claims after it are still validated. *)
Theorem validate_all_claims_one_result_per_claim
    claims sources validator_client st :
  ∃ results st',
    validate_all_claims claims sources validator_client st
    = (Returns results, st')
    ∧ length results = length claims
    ∧ Forall2 answers claims results
    ∧ ∀ pre claim post,
        claims = pre ++ claim :: post →
        ∃ rs_pre st1 r,
          validate_all_claims pre sources validator_client st
          = (Returns rs_pre, st1)
          ∧ results !! length pre = Some r
          ∧ ∀ e,
              claim_sources claim sources ≠ [] →
              (validator_client (claim_messages claim sources) (world st1)).1
              = Raises e →
              r = error_result claim e ∧ unverifiable r.
Proof.
  destruct (validate_all_claims_returns claims sources validator_client st)
    as (results & st' & Hrun & Hall).
  exists results, st'. split; [done|].
  split; [symmetry; eapply Forall2_length, Hall|].
  split; [done|].
  intros pre claim post ->.
  destruct (validate_all_claims_loop_returns pre sources validator_client st)
    as (rs_pre & st1 & Hpre & Hallpre).
  destruct (validate_claim_returns claim sources validator_client st1)
    as (r & st2 & Hr & _).
  destruct (validate_all_claims_loop_returns post sources validator_client st2)
    as (rs_post & st3 & Hpost & _).
  exists rs_pre, st1, r.
  split; [unfold validate_all_claims; apply Hpre|].
  assert (Hres : results = rs_pre ++ r :: rs_post).
  { unfold validate_all_claims in Hrun.
    rewrite validate_all_claims_loop_app, Hpre in Hrun.
    simpl in Hrun. revert Hrun. run_m. rewrite Hr.
    change (validate_all_claims_loop post sources validator_client
              ([] ++ rs_pre ++ [r]) st2 = (Returns results, st') →
            results = rs_pre ++ r :: rs_post).
    rewrite Hpost. simpl. rewrite <- app_assoc. by intros [= <- _]. }
  split.
  - rewrite Hres, (Forall2_length _ _ _ Hallpre).
    apply list_lookup_middle. reflexivity.
  - intros e Hne He.
    rewrite (validate_claim_evidence _ _ _ _ Hne), He in Hr.
    injection Hr as <- _. repeat split.
Qed.

End Batch.

(** ** Claim linking *)

Lemma url_to_source_id_snoc sources s :
  url_to_source_id (sources ++ [s])
  = <[Source.url s := Source.id s]> (url_to_source_id sources).
Proof. unfold url_to_source_id. rewrite foldl_app. reflexivity. Qed.

(** A key of the dictionary maps to the id of the last source with that
    URL. *)
Lemma url_to_source_id_Some sources url id :
  url_to_source_id sources !! url = Some id →
  ∃ k s,
    sources !! k = Some s ∧ Source.url s = url ∧ Source.id s = id
    ∧ ∀ k' s', (k < k')%nat → sources !! k' = Some s' → Source.url s' ≠ url.
Proof.
  revert id. induction sources as [|s sources IH] using rev_ind; intros id.
  - unfold url_to_source_id. simpl. rewrite lookup_empty. discriminate.
  - rewrite url_to_source_id_snoc.
    destruct (decide (Source.url s = url)) as [E|E].
    + rewrite E, lookup_insert_eq. intros [= <-].
      exists (length sources), s. split; [apply list_lookup_middle; done|].
      split; [done|]. split; [done|].
      intros k' s' Hk Hs'. apply lookup_lt_Some in Hs'.
      rewrite length_app in Hs'. simpl in Hs'. lia.
    + rewrite lookup_insert_ne by done. intros Hd.
      destruct (IH _ Hd) as (k & s0 & Hk & Hu & Hi & Hlast).
      exists k, s0. split; [by apply lookup_app_l_Some|].
      split; [done|]. split; [done|].
      intros k' s' Hlt Hs'.
      apply lookup_app_Some in Hs' as [Hs'|[Hge Hs']]; [by eapply Hlast|].
      destruct (k' - length sources)%nat; simpl in Hs'; [|done].
      by injection Hs' as <-.
Qed.

Lemma url_to_source_id_None sources url :
  url_to_source_id sources !! url = None
  ↔ ∀ s, s ∈ sources → Source.url s ≠ url.
Proof.
  induction sources as [|s sources IH] using rev_ind.
  - split; [intros _ s Hs; by apply elem_of_nil in Hs | intros _; apply lookup_empty].
  - rewrite url_to_source_id_snoc. split.
    + intros Hd s' Hs'.
      destruct (decide (Source.url s = url)) as [E|E].
      { rewrite E, lookup_insert_eq in Hd. discriminate. }
      rewrite lookup_insert_ne in Hd by done.
      apply elem_of_app in Hs' as [Hs'|Hs'].
      * by apply IH.
      * apply list_elem_of_singleton in Hs'. by subst.
    + intros Hall.
      rewrite lookup_insert_ne.
      * apply IH. intros s' Hs'. apply Hall, elem_of_app. by left.
      * apply Hall, elem_of_app. right. by apply list_elem_of_singleton.
Qed.

(** The last source with a URL is the one the dictionary keeps. *)
Lemma url_to_source_id_last sources k s :
  sources !! k = Some s →
  (∀ k' s', (k < k')%nat → sources !! k' = Some s' →
            Source.url s' ≠ Source.url s) →
  url_to_source_id sources !! Source.url s = Some (Source.id s).
Proof.
  intros Hk Hlast.
  destruct (url_to_source_id sources !! Source.url s) as [id|] eqn:Hd.
  - destruct (url_to_source_id_Some _ _ _ Hd) as (k0 & s0 & Hk0 & Hu & Hi & Hl0).
    destruct (Nat.lt_trichotomy k k0) as [Hlt|[->|Hlt]].
    + by destruct (Hlast _ _ Hlt Hk0).
    + rewrite Hk in Hk0. injection Hk0 as <-. by rewrite Hi.
    + by destruct (Hl0 _ _ Hlt Hk).
  - rewrite url_to_source_id_None in Hd.
    destruct (Hd s); [by eapply list_elem_of_lookup_2 | done].
Qed.

(** The two comprehensions amount to one pass that keeps the hits. *)
Lemma link_source_ids_omap (d : gmap string string) source_urls :
  link_source_ids d source_urls = omap (λ url, d !! url) source_urls.
Proof.
  unfold link_source_ids.
  induction source_urls as [|url urls IH]; [done|].
  rewrite filter_cons. case_decide as Hd; simpl in Hd.
  - destruct Hd as [id Hd].
    rewrite fmap_cons. simpl. rewrite Hd. f_equal. apply IH.
  - simpl. destruct (d !! url) as [id|]; [destruct Hd; eauto | apply IH].
Qed.

Lemma link_claims_lookup sources claims i claim :
  claims !! i = Some claim →
  link_claims sources claims !! i
  = Some (Claim.set_source_ids
            (omap (λ url, url_to_source_id sources !! url)
                  (Claim.source_urls claim)) claim).
Proof.
  intros H. unfold link_claims.
  rewrite list_lookup_fmap, H. simpl. by rewrite link_source_ids_omap.
Qed.

Lemma link_claims_elem sources claims claim' :
  claim' ∈ link_claims sources claims →
  ∃ claim,
    claim ∈ claims
    ∧ claim' = Claim.set_source_ids
                 (omap (λ url, url_to_source_id sources !! url)
                       (Claim.source_urls claim)) claim.
Proof.
  unfold link_claims. rewrite list_elem_of_fmap.
  intros (claim & -> & Hin). exists claim. by rewrite link_source_ids_omap.
Qed.

Lemma assign_source_ids_lookup report_id sources k s :
  assign_source_ids report_id sources !! k = Some s →
  Source.id s = "source-" +:+ report_id +:+ "-" +:+ pretty k.
Proof.
  unfold assign_source_ids. rewrite list_lookup_imap_Some.
  intros (s0 & _ & ->). reflexivity.
Qed.

(** Assigned source ids are pairwise distinct. *)
Lemma assign_source_ids_inj report_id sources i j s_i s_j :
  assign_source_ids report_id sources !! i = Some s_i →
  assign_source_ids report_id sources !! j = Some s_j →
  Source.id s_i = Source.id s_j → i = j.
Proof.
  intros Hi Hj.
  rewrite (assign_source_ids_lookup _ _ _ _ Hi),
          (assign_source_ids_lookup _ _ _ _ Hj).
  intros H. do 3 apply String.app_inj in H. by apply pretty_nat_inj in H.
Qed.

Section Extraction.
Context {W : Type} `{!Env W}.
Implicit Types (st : @State W) (extractor_client : @ExtractorClient W).

(** Extraction never raises: it draws the run identifier, calls the
    capability once, and either links what came back or gives [None]. *)
Lemma extract_claims_and_sources_run report_text extractor_client st :
  ∃ st',
    extract_claims_and_sources report_text extractor_client st
    = (Returns
         match (extractor_client (extractor_messages report_text)
                                 (uuid4 (world st)).2).1 with
         | Returns result =>
             let report_id := str_take 8 (uuid4 (world st)).1 in
             let sources :=
               assign_source_ids report_id (ExtractedReport.sources result) in
             Some (ExtractedReport.mk
                     (link_claims sources
                        (assign_claim_ids report_id
                           (ExtractedReport.claims result)))
                     sources)
         | Raises _ => None
         end, st')
    ∧ trace st' = trace st ++ [ExtractorCall (extractor_messages report_text)].
Proof.
  unfold extract_claims_and_sources. run_m.
  destruct (uuid4 (world st)) as [u w1]. simpl.
  destruct (extractor_client _ w1) as [[result|e] w2]; simpl;
    eexists; split; reflexivity.
Qed.

(** C4. Extraction never raises.  When the capability raises it gives
    [None]; when the capability returns, it gives a report with one claim
    per claim returned and one source per source returned, in the same
    order, in which every claim keeps its text and cited URLs and has as
    [source_ids] the image of its [source_urls] under the URL-to-id
    dictionary of the returned sources: URLs that are not keys are dropped,
    order and repetitions are kept, and every id is the id of a returned
    source.  A URL is a key exactly when some source has it. *)
Theorem extract_claims_and_sources_links report_text extractor_client st :
  ∃ extracted st',
    extract_claims_and_sources report_text extractor_client st
    = (Returns extracted, st')
    ∧ match (extractor_client (extractor_messages report_text)
                              (uuid4 (world st)).2).1 with
      | Raises _ => extracted = None
      | Returns result =>
          ∃ ex,
            extracted = Some ex
            ∧ Forall2 (linked_from (ExtractedReport.sources ex))
                      (ExtractedReport.claims result)
                      (ExtractedReport.claims ex)
            ∧ Forall2 same_source_data (ExtractedReport.sources result)
                                       (ExtractedReport.sources ex)
      end
    ∧ ∀ ex, extracted = Some ex →
        let d := url_to_source_id (ExtractedReport.sources ex) in
        (∀ claim, claim ∈ ExtractedReport.claims ex →
           Claim.source_ids claim
           = omap (λ url, d !! url) (Claim.source_urls claim)
           ∧ ∀ id, id ∈ Claim.source_ids claim →
                   ∃ s, s ∈ ExtractedReport.sources ex ∧ Source.id s = id)
        ∧ (∀ url, d !! url = None
                  ↔ ∀ s, s ∈ ExtractedReport.sources ex → Source.url s ≠ url)
        ∧ (∀ url id, d !! url = Some id →
             ∃ s, s ∈ ExtractedReport.sources ex
                  ∧ Source.url s = url ∧ Source.id s = id).
Proof.
  destruct (extract_claims_and_sources_run report_text extractor_client st)
    as (st' & Hrun & _).
  eexists _, st'. split; [exact Hrun|].
  assert (Hkey : ∀ sources url id,
            url_to_source_id sources !! url = Some id →
            ∃ s, s ∈ sources ∧ Source.url s = url ∧ Source.id s = id).
  { intros sources url id Hd.
    destruct (url_to_source_id_Some _ _ _ Hd) as (k & s & Hk & Hu & Hi & _).
    exists s. split; [by eapply list_elem_of_lookup_2 | done]. }
  split.
  - destruct (extractor_client _ _).1 as [result|e]; [|done].
    eexists. split; [reflexivity|]. simpl.
    set (report_id := str_take 8 (uuid4 (world st)).1).
    set (sources := assign_source_ids report_id (ExtractedReport.sources result)).
    split.
    + apply Forall2_same_length_lookup. split.
      * unfold link_claims, assign_claim_ids.
        by rewrite length_fmap, length_imap.
      * intros i raw claim Hraw Hclaim.
        assert (Hassigned :
          assign_claim_ids report_id (ExtractedReport.claims result) !! i
          = Some (Claim.set_id ("claim-" +:+ report_id +:+ "-" +:+ pretty i)
                               raw)).
        { unfold assign_claim_ids. by rewrite list_lookup_imap, Hraw. }
        rewrite (link_claims_lookup _ _ _ _ Hassigned) in Hclaim.
        injection Hclaim as <-. unfold linked_from. simpl.
        do 4 (split; [reflexivity|]).
        intros id (url & _ & Hd)%list_elem_of_omap.
        destruct (Hkey _ _ _ Hd) as (s & Hs & _ & Hi). eauto.
    + unfold sources, assign_source_ids.
      apply Forall2_same_length_lookup.
      split; [by rewrite length_imap|].
      intros i s s' Hs Hs'. rewrite list_lookup_imap, Hs in Hs'.
      by injection Hs' as <-.
  - intros ex Hex d.
    split; [|split; [intros url; apply url_to_source_id_None | apply Hkey]].
    intros claim Hin.
    destruct (extractor_client _ _).1 as [result|e]; [|done].
    injection Hex as <-. simpl in *.
    apply link_claims_elem in Hin as (claim0 & _ & ->). simpl.
    split; [done|].
    intros id Hid. apply list_elem_of_omap in Hid as (url & _ & Hd).
    destruct (Hkey _ _ _ Hd) as (s & Hs & _ & Hi). eauto.
Qed.

End Extraction.

(** C10. When two sources carry the same URL, the dictionary keeps the id
    of the last of them.  Linking returns one claim per claim given, in
    order, with its id and cited URLs; its [source_ids] is the image of the
    cited URLs under the dictionary, so a claim that cites the URL is linked
    to that last source, and the id of the earlier duplicate appears in no
    claim's [source_ids]. *)
Theorem duplicate_url_links_to_last
    report_id raw_sources claims i j s_i s_j :
  let sources := assign_source_ids report_id raw_sources in
  sources !! i = Some s_i →
  sources !! j = Some s_j →
  (i < j)%nat →
  Source.url s_i = Source.url s_j →
  (∀ k s_k, (j < k)%nat → sources !! k = Some s_k →
            Source.url s_k ≠ Source.url s_j) →
  url_to_source_id sources !! Source.url s_j = Some (Source.id s_j)
  ∧ Source.id s_i ≠ Source.id s_j
  ∧ Forall2 (linked_to_last sources s_i s_j) claims (link_claims sources claims)
  ∧ ∀ claim, claim ∈ link_claims sources claims →
      (Source.id s_i ∉ Claim.source_ids claim)
      ∧ (Source.url s_j ∈ Claim.source_urls claim →
         Source.id s_j ∈ Claim.source_ids claim).
Proof.
  intros sources Hi Hj Hlt Hurl Hlast.
  pose proof (url_to_source_id_last _ _ _ Hj Hlast) as Hd.
  assert (Hshadow : ∀ urls : list string,
            Source.id s_i ∉ omap (λ url, url_to_source_id sources !! url) urls).
  { intros urls Hid. apply list_elem_of_omap in Hid as (url & _ & Hu).
    destruct (url_to_source_id_Some _ _ _ Hu) as (k & s & Hk & Hsu & Hsi & Hl).
    pose proof (assign_source_ids_inj _ _ _ _ _ _ Hk Hi Hsi) as ->.
    rewrite Hi in Hk. injection Hk as <-.
    apply (Hl _ _ Hlt Hj). by rewrite <- Hsu. }
  split; [done|]. split.
  { intros Heq. pose proof (assign_source_ids_inj _ _ _ _ _ _ Hi Hj Heq). lia. }
  split.
  { apply Forall2_same_length_lookup. split.
    - unfold link_claims. by rewrite length_fmap.
    - intros k claim linked Hclaim Hlinked.
      rewrite (link_claims_lookup _ _ _ _ Hclaim) in Hlinked.
      injection Hlinked as <-. unfold linked_to_last. simpl.
      do 3 (split; [reflexivity|]).
      split; [apply Hshadow|].
      intros Hcite. apply list_elem_of_omap. eauto. }
  intros claim Hin.
  apply link_claims_elem in Hin as (claim0 & _ & ->). simpl. split.
  - apply Hshadow.
  - intros Hcite. apply list_elem_of_omap. eauto.
Qed.

(** ** Report generation *)

Lemma status_str_inj s1 s2 : status_str s1 = status_str s2 → s1 = s2.
Proof. destruct s1, s2; simpl; intros H; try reflexivity; discriminate H. Qed.

Lemma status_counts_init_lookup s :
  status_counts_init !! status_str s = Some 0%Z.
Proof. destruct s; reflexivity. Qed.

Lemma status_counts_init_dom : dom status_counts_init = status_keys.
Proof.
  unfold status_counts_init, status_keys.
  rewrite !dom_insert_L, dom_empty_L. set_solver.
Qed.

Lemma count_status_cons s r rs :
  count_status s (r :: rs)
  = ((if decide (ValidationResult.status r = s) then 1 else 0)
     + count_status s rs)%nat.
Proof.
  unfold count_status. rewrite filter_cons.
  destruct (decide (ValidationResult.status r = s)); reflexivity.
Qed.

Lemma count_status_total rs :
  (count_status SUPPORTED rs + count_status PARTIALLY_SUPPORTED rs
   + count_status CONTRADICTED rs + count_status UNVERIFIABLE rs)%nat
  = length rs.
Proof.
  induction rs as [|r rs IH]; [reflexivity|].
  rewrite !count_status_cons. simpl length. rewrite <- IH.
  destruct (ValidationResult.status r);
    repeat (destruct (decide _) as [?|?]; try congruence); lia.
Qed.

Section Report.
Context {W : Type} `{!Env W}.
Implicit Types (st : @State W).

(** With the four keys present the tally never raises [KeyError]; it keeps
    the keys and adds, per status, the number of results with it. *)
Lemma tally_returns rs (d : gmap string Z) :
  (∀ s, is_Some (d !! status_str s)) →
  ∃ d' : gmap string Z,
    (∀ st, tally rs d st = (Returns d', st))
    ∧ dom d' = dom d
    ∧ ∀ s, d' !! status_str s
           = (λ n, n + Z.of_nat (count_status s rs))%Z <$> d !! status_str s.
Proof.
  revert d. induction rs as [|r rs IH]; intros d Hd.
  - exists d. split; [done|]. split; [done|].
    intros s. destruct (d !! status_str s); simpl; [|done].
    f_equal. change (count_status s []) with 0%nat. lia.
  - destruct (Hd (ValidationResult.status r)) as [n Hn].
    set (k := status_str (ValidationResult.status r)) in *.
    destruct (IH (<[k := (n + 1)%Z]> d)) as (d' & Hrun & Hdom & Hcnt).
    { intros s. rewrite lookup_insert_is_Some'. right. apply Hd. }
    exists d'. split; [|split].
    + intros st. simpl. unfold dict_incr. fold k. rewrite Hn. run_m. apply Hrun.
    + rewrite Hdom, dom_insert_L.
      apply subseteq_union_1_L, singleton_subseteq_l, elem_of_dom. eauto.
    + intros s. rewrite Hcnt, count_status_cons.
      destruct (decide (ValidationResult.status r = s)) as [<-|Hne].
      * fold k. rewrite lookup_insert_eq, Hn. simpl. f_equal. lia.
      * rewrite lookup_insert_ne.
        -- destruct (d !! status_str s); simpl; [f_equal; lia | done].
        -- intros Hk. apply Hne. by apply status_str_inj.
Qed.

(** C5. The report generator always returns a report; its [results] has
    exactly the four status keys, each holding the number of results with
    that status (0 when there is none); the four counts sum to
    [claim_count], which is the number of results; [has_contradictions] is
    true exactly when some result is flagged; and the score is the
    scorer's. *)
Theorem generate_trust_report_spec (rs : list ValidationResult.t) st :
  ∃ report st',
    generate_trust_report rs st = (Returns report, st')
    ∧ dom (TrustReport.results report) = status_keys
    ∧ (∀ s, TrustReport.results report !! status_str s
            = Some (Z.of_nat (count_status s rs)))
    ∧ counts_total (TrustReport.results report) = TrustReport.claim_count report
    ∧ TrustReport.claim_count report = Z.of_nat (length rs)
    ∧ (TrustReport.has_contradictions report = true
       ↔ ∃ r, r ∈ rs ∧ ValidationResult.has_contradictions r = true)
    ∧ TrustReport.trust_score report = calculate_trust_score rs
    ∧ trace st' = trace st.
Proof.
  destruct (tally_returns rs status_counts_init) as (d & Hrun & Hdom & Hcnt).
  { intros s. rewrite status_counts_init_lookup. eauto. }
  assert (Hlk : ∀ s, d !! status_str s = Some (Z.of_nat (count_status s rs))).
  { intros s. rewrite Hcnt, status_counts_init_lookup. reflexivity. }
  unfold generate_trust_report. run_m. rewrite Hrun.
  destruct (uuid4 (world st)) as [u w1]. simpl.
  destruct (datetime_now_isoformat w1) as [ts w2]. simpl.
  eexists _, _. split; [reflexivity|]. simpl.
  split; [by rewrite Hdom, status_counts_init_dom|].
  split; [done|].
  split.
  { unfold counts_total.
    pose proof (Hlk SUPPORTED) as H1. pose proof (Hlk PARTIALLY_SUPPORTED) as H2.
    pose proof (Hlk CONTRADICTED) as H3. pose proof (Hlk UNVERIFIABLE) as H4.
    simpl in H1, H2, H3, H4. rewrite H1, H2, H3, H4. simpl.
    rewrite <- (count_status_total rs). lia. }
  split; [done|].
  split; [|done].
  rewrite existsb_exists. split.
  - intros (r & Hin & Hf). exists r. by rewrite list_elem_of_In.
  - intros (r & Hin & Hf). exists r. by rewrite <- list_elem_of_In.
Qed.

End Report.

(** ** Cleaning the scraped text *)

Lemma append_cons c s t : String c s +:+ t = String c (s +:+ t).
Proof. reflexivity. Qed.

Lemma append_nil_r s : s +:+ "" = s.
Proof. induction s as [|c s IH]; [done|]. by rewrite append_cons, IH. Qed.

Lemma append_assoc s1 s2 s3 : (s1 +:+ s2) +:+ s3 = s1 +:+ (s2 +:+ s3).
Proof. induction s1 as [|c s1 IH]; [done|]. by rewrite !append_cons, IH. Qed.

Lemma length_append s1 s2 :
  String.length (s1 +:+ s2) = (String.length s1 + String.length s2)%nat.
Proof.
  induction s1 as [|c s1 IH]; [done|]. rewrite append_cons. simpl. by rewrite IH.
Qed.

Lemma all_space_append s1 s2 :
  all_space (s1 +:+ s2) = all_space s1 && all_space s2.
Proof.
  induction s1 as [|c s1 IH]; [done|]. rewrite append_cons. simpl.
  by rewrite IH, andb_assoc.
Qed.

(** Reading a stretch of whitespace only lengthens the pending run. *)
Lemma re_sub_ws3_go_run acc run s :
  all_space run = true →
  re_sub_ws3_go acc (run +:+ s) = re_sub_ws3_go (acc +:+ run) s.
Proof.
  revert acc. induction run as [|c run IH]; intros acc Hrun.
  - by rewrite append_nil_r.
  - simpl in Hrun. apply andb_true_iff in Hrun as [Hc Hrun].
    rewrite append_cons. simpl. rewrite Hc, IH by done.
    by rewrite append_assoc.
Qed.

(** A character that is not whitespace is copied. *)
Lemma re_sub_ws3_char c s :
  is_space c = false → re_sub_ws3 (String c s) = String c (re_sub_ws3 s).
Proof. intros Hc. unfold re_sub_ws3. simpl. by rewrite Hc. Qed.

Lemma append_nil_l s : "" +:+ s = s.
Proof. reflexivity. Qed.

(** A maximal whitespace run of length 3 or more becomes a blank line. *)
Lemma re_sub_ws3_long_run run s :
  all_space run = true → (3 ≤ String.length run)%nat →
  head_not_space s = true →
  re_sub_ws3 (run +:+ s) = nl +:+ nl +:+ re_sub_ws3 s.
Proof.
  intros Hrun Hlen Hs. unfold re_sub_ws3.
  rewrite re_sub_ws3_go_run, append_nil_l by done.
  assert (Hf : flush_run run = nl +:+ nl).
  { unfold flush_run. by rewrite (proj2 (Nat.leb_le _ _) Hlen). }
  destruct s as [|c s]; simpl.
  - rewrite Hf. reflexivity.
  - simpl in Hs. apply negb_true_iff in Hs. rewrite Hs, Hf. reflexivity.
Qed.

(** A maximal whitespace run of length 1 or 2 is kept. *)
Lemma re_sub_ws3_short_run run s :
  all_space run = true → (String.length run < 3)%nat →
  head_not_space s = true →
  re_sub_ws3 (run +:+ s) = run +:+ re_sub_ws3 s.
Proof.
  intros Hrun Hlen Hs. unfold re_sub_ws3.
  rewrite re_sub_ws3_go_run, append_nil_l by done.
  assert (Hf : flush_run run = run).
  { unfold flush_run. by rewrite (proj2 (Nat.leb_gt _ _) Hlen). }
  destruct s as [|c s]; simpl.
  - rewrite Hf. change (flush_run "") with "". by rewrite append_nil_r.
  - simpl in Hs. apply negb_true_iff in Hs. rewrite Hs, Hf. reflexivity.
Qed.

(** What a pending run is flushed to: a blank line, or at most two
    whitespace characters. *)
Lemma flush_run_cases run :
  all_space run = true →
  flush_run run = nl +:+ nl
  ∨ flush_run run = ""
  ∨ (∃ a, flush_run run = String a "" ∧ is_space a = true)
  ∨ ∃ a b, flush_run run = String a (String b "")
           ∧ is_space a = true ∧ is_space b = true.
Proof.
  intros Hrun. unfold flush_run.
  destruct run as [|a [|b [|c run]]]; simpl in *.
  - right; left. done.
  - right; right; left. exists a. split; [done|].
    by apply andb_true_iff in Hrun as [? _].
  - right; right; right. exists a, b. split; [done|].
    apply andb_true_iff in Hrun as [? Hrun].
    by apply andb_true_iff in Hrun as [? _].
  - by left.
Qed.

Lemma no_ws3_after_flush run c s :
  all_space run = true → is_space c = false →
  no_ws3_from 0 (flush_run run +:+ String c s) = no_ws3_from 0 s.
Proof.
  intros Hrun Hc.
  destruct (flush_run_cases run Hrun)
    as [->|[->|[(a & -> & Ha)|(a & b & -> & Ha & Hb)]]].
  - change (nl +:+ nl +:+ String c s)
      with (String "010" (String "010" (String c s))).
    simpl. by rewrite Hc.
  - rewrite append_nil_l. simpl. by rewrite Hc.
  - rewrite append_cons, append_nil_l. simpl. by rewrite Ha, Hc.
  - rewrite !append_cons, append_nil_l. simpl. by rewrite Ha, Hb, Hc.
Qed.

Lemma no_ws3_flush run :
  all_space run = true → no_ws3_from 0 (flush_run run) = true.
Proof.
  intros Hrun.
  destruct (flush_run_cases run Hrun)
    as [->|[->|[(a & -> & Ha)|(a & b & -> & Ha & Hb)]]]; simpl;
    rewrite ?Ha, ?Hb; reflexivity.
Qed.

(** After the substitution no whitespace run has length 3 or more. *)
Lemma re_sub_ws3_go_no_ws3 run s :
  all_space run = true → no_ws3_from 0 (re_sub_ws3_go run s) = true.
Proof.
  revert run. induction s as [|c s IH]; intros run Hrun; simpl.
  - by apply no_ws3_flush.
  - destruct (is_space c) eqn:Hc.
    + apply IH. rewrite all_space_append, Hrun. simpl. by rewrite Hc.
    + rewrite no_ws3_after_flush by done. by apply IH.
Qed.

Lemma re_sub_ws3_no_ws3 s : no_ws3_from 0 (re_sub_ws3 s) = true.
Proof. by apply re_sub_ws3_go_no_ws3. Qed.

Lemma lstrip_head s : head_not_space (lstrip s) = true.
Proof.
  induction s as [|c s IH]; simpl; [done|].
  destruct (is_space c) eqn:Hc; [done|]. simpl. by rewrite Hc.
Qed.

Lemma rstrip_head s : head_not_space s = true → head_not_space (rstrip s) = true.
Proof.
  destruct s as [|c s]; simpl; [done|]. intros Hc.
  destruct (rstrip s); simpl.
  - apply negb_true_iff in Hc. rewrite Hc. simpl. by rewrite Hc.
  - exact Hc.
Qed.

Lemma rstrip_last s : last_not_space (rstrip s) = true.
Proof.
  induction s as [|c s IH]; simpl; [done|].
  destruct (rstrip s) as [|d t] eqn:E.
  - destruct (is_space c) eqn:Hc; simpl; [done | by rewrite Hc].
  - exact IH.
Qed.

(** The trimmed text neither begins nor ends with whitespace. *)
Lemma strip_trimmed s :
  head_not_space (strip s) = true ∧ last_not_space (strip s) = true.
Proof.
  unfold strip. split; [apply rstrip_head, lstrip_head | apply rstrip_last].
Qed.

Example re_sub_ws3_sample :
  re_sub_ws3 ("a  b   c " +:+ nl +:+ " " +:+ nl +:+ "d" +:+ nl +:+ nl +:+ nl)
  = "a  b" +:+ nl +:+ nl +:+ "c" +:+ nl +:+ nl +:+ "d" +:+ nl +:+ nl.
Proof. reflexivity. Qed.

Example strip_sample : strip ("  a  b " +:+ nl) = "a  b".
Proof. reflexivity. Qed.

(** ** Source retrieval *)

Section Retrieval.
Context {W : Type}.
Implicit Types (st : @State W) (app : @FirecrawlApp W).

(** One pass of the loop: one scraper call, never an exception, and the
    source comes back with content. *)
Lemma fetch_source_run app source st :
  ∃ fetched,
    fetch_source app source st
    = (Returns fetched,
       mkState (app (Source.url source) (world st)).2
               (trace st ++ [ScrapeCall (Source.url source)]))
    ∧ retrieved source (app (Source.url source) (world st)).1 fetched
    ∧ Source.content fetched ≠ None.
Proof.
  unfold fetch_source, retrieved. run_m.
  destruct (app (Source.url source) (world st)) as [[result|e] w]; simpl.
  - destruct result as [d|]; simpl; [destruct (d !! "markdown")|]; simpl;
      eexists; (split; [reflexivity|]); simpl; done.
  - eexists; (split; [reflexivity|]); simpl; done.
Qed.

Lemma fetch_sources_loop_returns app sources st :
  ∃ fs st',
    (∀ fetched_sources,
       fetch_sources_loop app sources fetched_sources st
       = (Returns (fetched_sources ++ fs), st'))
    ∧ length fs = length sources
    ∧ trace st' = trace st ++ ((λ s, ScrapeCall (Source.url s)) <$> sources)
    ∧ Forall (λ s, Source.content s ≠ None) fs.
Proof.
  revert st. induction sources as [|source rest IH]; intros st.
  - exists [], st. split; [|by rewrite app_nil_r].
    intros acc. simpl. by rewrite app_nil_r.
  - destruct (fetch_source_run app source st) as (f & Hf & _ & Hc).
    destruct (IH (mkState (app (Source.url source) (world st)).2
                          (trace st ++ [ScrapeCall (Source.url source)])))
      as (fs & st' & Hrun & Hlen & Htr & Hall).
    exists (f :: fs), st'. split; [|split; [|split]].
    + intros acc. simpl. run_m. rewrite Hf.
      change (fetch_sources_loop app rest (acc ++ [f])
                (mkState (app (Source.url source) (world st)).2
                         (trace st ++ [ScrapeCall (Source.url source)]))
              = (Returns (acc ++ f :: fs), st')).
      rewrite Hrun, <- app_assoc. reflexivity.
    + simpl. by rewrite Hlen.
    + rewrite Htr. simpl. rewrite <- app_assoc. reflexivity.
    + by constructor.
Qed.

Lemma fetch_sources_loop_app app pre post fetched_sources st :
  fetch_sources_loop app (pre ++ post) fetched_sources st
  = match fetch_sources_loop app pre fetched_sources st with
    | (Returns fs, st1) => fetch_sources_loop app post fs st1
    | (Raises e, st1) => (Raises e, st1)
    end.
Proof.
  revert fetched_sources st.
  induction pre as [|source pre IH]; intros acc st; [reflexivity|].
  simpl. run_m.
  destruct (fetch_source app source st) as [[f|e] st1]; [|reflexivity].
  apply IH.
Qed.

(** Retrieval never raises, whatever client it is given. *)
Lemma fetch_sources_returns sources (firecrawl_app : option (@FirecrawlApp W)) st :
  ∃ fetched st',
    fetch_sources sources firecrawl_app st = (Returns fetched, st')
    ∧ length fetched = length sources.
Proof.
  destruct firecrawl_app as [app|]; simpl.
  - destruct (fetch_sources_loop_returns app sources st)
      as (fs & st' & Hrun & Hlen & _).
    exists fs, st'. by rewrite Hrun.
  - by exists sources, st.
Qed.

(** C7 (amended). With an initialised scraping client, retrieval never
    raises and scrapes every source once, in input order; the source at each
    position comes back with its content set from the scraper's response at
    that point: the text with whitespace runs of three or more collapsed to
    a blank line and trimmed, or "Error fetching content from {url}"
    followed by ". Firecrawl returned empty or invalid data." for an
    unusable response and by ": {detail}" for a raised error.  So every
    returned source has content, and a failure leaves the later sources to
    be processed.  Without a client the list comes back untouched. *)
Theorem fetch_sources_spec sources app st :
  (∃ fetched st',
     fetch_sources sources (Some app) st = (Returns fetched, st')
     ∧ length fetched = length sources
     ∧ trace st' = trace st ++ ((λ s, ScrapeCall (Source.url s)) <$> sources)
     ∧ Forall (λ s, Source.content s ≠ None) fetched
     ∧ ∀ pre source post,
         sources = pre ++ source :: post →
         ∃ fetched_pre st1 s',
           fetch_sources pre (Some app) st = (Returns fetched_pre, st1)
           ∧ fetched !! length pre = Some s'
           ∧ retrieved source (app (Source.url source) (world st1)).1 s')
  ∧ fetch_sources sources None st = (Returns sources, st).
Proof.
  split; [|reflexivity].
  destruct (fetch_sources_loop_returns app sources st)
    as (fetched & st' & Hrun & Hlen & Htr & Hall).
  exists fetched, st'. simpl. rewrite Hrun. simpl.
  do 4 (split; [done|]).
  intros pre source post ->.
  destruct (fetch_sources_loop_returns app pre st)
    as (fpre & st1 & Hpre & Hlpre & _).
  destruct (fetch_source_run app source st1) as (s' & Hs' & Hret & _).
  destruct (fetch_sources_loop_returns app post
              (mkState (app (Source.url source) (world st1)).2
                       (trace st1 ++ [ScrapeCall (Source.url source)])))
    as (fpost & st3 & Hpost & _).
  exists fpre, st1, s'. rewrite Hpre. simpl.
  split; [done|]. split; [|done].
  specialize (Hrun []). simpl in Hrun.
  rewrite fetch_sources_loop_app, Hpre in Hrun. simpl in Hrun.
  revert Hrun. run_m. rewrite Hs'.
  change (fetch_sources_loop app post ([] ++ fpre ++ [s'])
            (mkState (app (Source.url source) (world st1)).2
                     (trace st1 ++ [ScrapeCall (Source.url source)]))
          = (Returns fetched, st') → fetched !! length pre = Some s').
  rewrite Hpost. simpl. rewrite <- app_assoc. intros [= <- _].
  rewrite <- Hlpre. apply list_lookup_middle. reflexivity.
Qed.

End Retrieval.

(** ** The pipeline *)

Section Orchestrator.
Context {W : Type} `{!Env W}.
Implicit Types (st : @State W).

Lemma generate_trust_report_returns (rs : list ValidationResult.t) st :
  ∃ report st', generate_trust_report rs st = (Returns report, st').
Proof.
  destruct (tally_returns (W:=W) rs status_counts_init) as (d & Hrun & _).
  { intros s. rewrite status_counts_init_lookup. eauto. }
  unfold generate_trust_report. run_m. rewrite Hrun.
  destruct (uuid4 (world st)) as [u w1]. simpl.
  destruct (datetime_now_isoformat w1) as [ts w2]. simpl.
  eexists _, _. reflexivity.
Qed.

Lemma validate_report_run report_text extractor_client validator_client
    firecrawl_app st :
  ∃ extracted st1 output st',
    extract_claims_and_sources report_text extractor_client st
    = (Returns extracted, st1)
    ∧ validate_report report_text extractor_client validator_client
                      firecrawl_app st
      = (Returns output, st')
    ∧ match extracted with
      | None => output = None ∧ st' = st1
      | Some ex =>
          match ExtractedReport.claims ex with
          | [] => output = None ∧ st' = st1
          | _ =>
              ∃ srcs st2 results st3 report,
                match ExtractedReport.sources ex with
                | [] => srcs = [] ∧ st2 = st1
                | _ => fetch_sources (ExtractedReport.sources ex)
                                     firecrawl_app st1
                       = (Returns srcs, st2)
                end
                ∧ validate_all_claims (ExtractedReport.claims ex) srcs
                                      validator_client st2
                  = (Returns results, st3)
                ∧ length results = length (ExtractedReport.claims ex)
                ∧ generate_trust_report results st3 = (Returns report, st')
                ∧ output
                  = Some (report, results,
                          ExtractedReport.mk (ExtractedReport.claims ex) srcs)
          end
      end.
Proof.
  destruct (extract_claims_and_sources_run report_text extractor_client st)
    as (st1 & Hex & _).
  unfold validate_report. run_m. rewrite Hex.
  set (extracted := match (extractor_client _ _).1 with
                    | Returns _ => _ | Raises _ => None end) in *.
  clearbody extracted.
  destruct extracted as [ex|]; [|by eexists None, st1, None, st1].
  destruct (ExtractedReport.claims ex) as [|claim claims] eqn:Hclaims;
    [by eexists (Some ex), st1, None, st1; rewrite Hclaims|].
  assert (Hsrc : ∃ srcs st2,
    match ExtractedReport.sources ex with
    | [] => ret (W:=W) []
    | _ :: _ => fetch_sources (ExtractedReport.sources ex) firecrawl_app
    end st1 = (Returns srcs, st2)
    ∧ match ExtractedReport.sources ex with
      | [] => srcs = [] ∧ st2 = st1
      | _ => fetch_sources (ExtractedReport.sources ex) firecrawl_app st1
             = (Returns srcs, st2)
      end).
  { destruct (ExtractedReport.sources ex) as [|s l] eqn:Hs.
    - by exists [], st1.
    - destruct (fetch_sources_returns (s :: l) firecrawl_app st1)
        as (srcs & st2 & Hf & _).
      by exists srcs, st2. }
  destruct Hsrc as (srcs & st2 & Hsrc & Hsrc').
  unfold ret in Hsrc. rewrite Hsrc.
  destruct (validate_all_claims_returns (claim :: claims) srcs
              validator_client st2) as (results & st3 & Hval & Hall).
  rewrite Hval.
  pose proof (Forall2_length _ _ _ Hall) as Hlen.
  destruct results as [|r results]; [done|].
  destruct (generate_trust_report_returns (r :: results) st3)
    as (report & st' & Hgen).
  rewrite Hgen.
  eexists (Some ex), st1, _, st'. split; [done|]. split; [reflexivity|].
  rewrite Hclaims.
  exists srcs, st2, (r :: results), st3, report. done.
Qed.

(** C6. The pipeline never raises.  It returns [None] exactly when
    extraction failed, extraction gave no claims, or validation gave no
    results; otherwise it returns the report generated from the validation
    results, those results, and the extracted report with the sources as
    retrieved.  With an empty extracted source list retrieval is skipped:
    the validator runs on no sources from the state extraction left. *)
Theorem validate_report_spec report_text extractor_client validator_client
    firecrawl_app st :
  ∃ extracted st1 output st',
    extract_claims_and_sources report_text extractor_client st
    = (Returns extracted, st1)
    ∧ validate_report report_text extractor_client validator_client
                      firecrawl_app st
      = (Returns output, st')
    ∧ (output = None ↔
         extracted = None
         ∨ (∃ ex, extracted = Some ex ∧ ExtractedReport.claims ex = [])
         ∨ (∃ ex srcs st2 st3,
              extracted = Some ex
              ∧ retrieval_step (ExtractedReport.sources ex) firecrawl_app
                               st1 srcs st2
              ∧ validate_all_claims (ExtractedReport.claims ex) srcs
                                    validator_client st2
                = (Returns [], st3)))
    ∧ (∀ report results ex',
         output = Some (report, results, ex') →
         ∃ ex srcs st2 st3,
           extracted = Some ex
           ∧ retrieval_step (ExtractedReport.sources ex) firecrawl_app
                            st1 srcs st2
           ∧ validate_all_claims (ExtractedReport.claims ex) srcs
                                 validator_client st2
             = (Returns results, st3)
           ∧ generate_trust_report results st3 = (Returns report, st')
           ∧ ex' = ExtractedReport.mk (ExtractedReport.claims ex) srcs).
Proof.
  destruct (validate_report_run report_text extractor_client validator_client
              firecrawl_app st)
    as (extracted & st1 & output & st' & Hex & Hrun & Hcases).
  exists extracted, st1, output, st'. split; [done|]. split; [done|].
  destruct extracted as [ex|].
  - destruct (ExtractedReport.claims ex) as [|claim claims] eqn:Hclaims.
    + destruct Hcases as [-> ->]. split; [|done].
      split; [|done]. intros _. right; left. by exists ex.
    + destruct Hcases
        as (srcs & st2 & results & st3 & report & Hstep & Hval & Hlen & Hgen & ->).
      split.
      * split; [done|].
        intros [[=]|[(ex0 & [= <-] & Hnil)|(ex0 & srcs0 & st20 & st30 & [= <-] & Hstep0 & Hval0)]];
          [congruence|].
        exfalso. unfold retrieval_step in Hstep0.
        assert (srcs0 = srcs ∧ st20 = st2) as [-> ->].
        { destruct (ExtractedReport.sources ex).
          - destruct Hstep as [-> ->], Hstep0 as [-> ->]. done.
          - rewrite Hstep in Hstep0. by injection Hstep0 as <- <-. }
        rewrite Hclaims, Hval in Hval0. injection Hval0 as -> _.
        simpl in Hlen. lia.
      * intros report0 results0 ex' [= <- <- <-].
        exists ex, srcs, st2, st3. rewrite Hclaims. done.
  - destruct Hcases as [-> ->]. split; [|done].
    split; [|done]. intros _. by left.
Qed.

End Orchestrator.

(** * The properties on the sample data *)

Example trust_score_scenario :
  calculate_trust_score
    [sample_result SUPPORTED (9 # 10) false;
     sample_result SUPPORTED (9 # 10) false;
     sample_result UNVERIFIABLE 0 false] = (733 # 10)%Q.
Proof. reflexivity. Qed.

Example trust_score_all_unverifiable :
  calculate_trust_score [sample_result UNVERIFIABLE 0 false] = (200 # 10)%Q.
Proof. reflexivity. Qed.

Example trust_score_all_contradicted :
  calculate_trust_score
    [sample_result CONTRADICTED 1 true; sample_result CONTRADICTED 1 true]
  = (0 # 10)%Q.
Proof. reflexivity. Qed.

(** A tie at the second decimal goes to the even digit: 6.25 gives 6.2. *)
Example trust_score_tie :
  calculate_trust_score
    (sample_result PARTIALLY_SUPPORTED 1 false
     :: replicate 7 (sample_result CONTRADICTED 1 false)) = (62 # 10)%Q.
Proof. reflexivity. Qed.

Example applied_penalty_five : applied_penalty (flagged_results 5 4) = 20%Z.
Proof. reflexivity. Qed.

Example applied_penalty_nine : applied_penalty (flagged_results 9 0) = 20%Z.
Proof. reflexivity. Qed.

Example applied_penalty_three : applied_penalty (flagged_results 3 6) = 15%Z.
Proof. reflexivity. Qed.

Lemma contradiction_penalty_monotone_capped_witness :
  Forall2 more_flagged (flagged_results 5 4) (flagged_results 9 0)
  ∧ (applied_penalty (flagged_results 5 4)
     ≤ applied_penalty (flagged_results 9 0))%Z
  ∧ (applied_penalty (flagged_results 9 0) ≤ 20)%Z
  ∧ flagged (flagged_results 9 0) = 9%nat
  ∧ applied_penalty (flagged_results 9 0) = 20%Z
  ∧ (calculate_trust_score (flagged_results 9 0)
     == round1 (Qmax 0 (spec_base (flagged_results 9 0) - inject_Z 20)))%Q.
Proof.
  assert (H : Forall2 more_flagged (flagged_results 5 4) (flagged_results 9 0)).
  { unfold flagged_results. simpl.
    repeat (constructor; [split; [reflexivity | intros _; reflexivity]|]).
    constructor. }
  split; [exact H|].
  destruct (contradiction_penalty_monotone_capped _ _ H)
    as (H1 & H2 & _ & _ & _ & _ & _ & _ & _ & Hcap & _ & Hscore).
  assert (Hn : flagged (flagged_results 9 0) = 9%nat) by reflexivity.
  assert (Hp : applied_penalty (flagged_results 9 0) = 20%Z).
  { apply Hcap. rewrite Hn. lia. }
  split; [exact H1|]. split; [exact H2|]. split; [exact Hn|].
  split; [exact Hp|].
  rewrite Hp in Hscore. exact Hscore.
Defined.

Lemma calculate_trust_score_ignores_confidence_witness :
  Forall2 same_verdict verdicts_confident verdicts_hesitant
  ∧ calculate_trust_score verdicts_confident
    = calculate_trust_score verdicts_hesitant.
Proof.
  assert (H : Forall2 same_verdict verdicts_confident verdicts_hesitant).
  { unfold verdicts_confident, verdicts_hesitant.
    repeat (constructor; [split; reflexivity|]). constructor. }
  split; [exact H|].
  exact (calculate_trust_score_ignores_confidence _ _ H).
Defined.

(** C2, as stated, fails: a page fetched without error whose text begins
    with "Error" is evidence by the sentinel test of the specification, and
    the validator's filter drops it. *)
Lemma claim_sources_drops_error_page :
  claim_sources sample_claim [error_page] = []
  ∧ spec_evidence sample_claim [error_page] = [error_page]
  ∧ claim_sources sample_claim [error_page]
    ≠ spec_evidence sample_claim [error_page].
Proof. split; [|split]; [reflexivity | reflexivity | discriminate]. Qed.

Lemma validate_claim_evidence_set_witness :
  claim_sources sample_claim [failed_source] = []
  ∧ ∃ r,
      validate_claim sample_claim [failed_source] stub_validator stub_state
      = (Returns (Some r), stub_state)
      ∧ unverifiable r ∧ answers sample_claim r.
Proof.
  assert (H : claim_sources sample_claim [failed_source] = []) by reflexivity.
  split; [exact H|].
  destruct (validate_claim_evidence_set sample_claim [failed_source]
              stub_validator stub_state) as (_ & _ & Hempty).
  exact (Hempty H).
Defined.

Lemma validate_all_claims_one_result_per_claim_witness :
  ∃ results st',
    validate_all_claims sample_claims sample_sources failing_validator
                        stub_state
    = (Returns results, st')
    ∧ length results = 3%nat
    ∧ Forall2 answers sample_claims results
    ∧ results !! 1%nat
      = Some (error_result sample_claim "503 service unavailable").
Proof.
  destruct (validate_all_claims_one_result_per_claim sample_claims
              sample_sources failing_validator stub_state)
    as (results & st' & Hrun & Hlen & Hall & Hpos).
  exists results, st'. split; [exact Hrun|]. split; [exact Hlen|].
  split; [exact Hall|].
  destruct (Hpos [cold_claim] sample_claim [cold_claim] eq_refl)
    as (rs_pre & st1 & r & _ & Hr & Herr).
  destruct (Herr "503 service unavailable") as [-> _].
  - discriminate.
  - reflexivity.
  - exact Hr.
Defined.

Lemma extract_claims_and_sources_links_witness :
  ∃ ex st',
    extract_claims_and_sources "report" stub_extractor stub_state
    = (Returns (Some ex), st')
    ∧ Forall2 (linked_from (ExtractedReport.sources ex))
              sample_raw_claims (ExtractedReport.claims ex)
    ∧ Forall2 same_source_data sample_raw_sources (ExtractedReport.sources ex)
    ∧ ∀ claim, claim ∈ ExtractedReport.claims ex →
        Claim.source_ids claim
        = omap (λ url, url_to_source_id (ExtractedReport.sources ex) !! url)
               (Claim.source_urls claim).
Proof.
  destruct (extract_claims_and_sources_links "report" stub_extractor stub_state)
    as (extracted & st' & Hrun & Hgiven & Hlink).
  change (∃ ex, extracted = Some ex
                ∧ Forall2 (linked_from (ExtractedReport.sources ex))
                          sample_raw_claims (ExtractedReport.claims ex)
                ∧ Forall2 same_source_data sample_raw_sources
                          (ExtractedReport.sources ex)) in Hgiven.
  destruct Hgiven as (ex & -> & Hclaims & Hsources).
  exists ex, st'. split; [exact Hrun|].
  split; [exact Hclaims|]. split; [exact Hsources|].
  intros claim Hin. destruct (Hlink ex eq_refl) as (Hc & _).
  exact (proj1 (Hc claim Hin)).
Defined.

Example extract_claims_and_sources_stub :
  (extract_claims_and_sources "report" stub_extractor stub_state).1
  = Returns (Some (ExtractedReport.mk
      [Claim.mk "claim-1b9d6bcd-0" "Budgets shrank." "Did budgets shrink?"
                ["https://a.example/x"; "https://nowhere.example"]
                ["source-1b9d6bcd-2"]]
      [Source.mk "source-1b9d6bcd-0" "https://a.example/x" None None;
       Source.mk "source-1b9d6bcd-1" "https://c.example/z" None None;
       Source.mk "source-1b9d6bcd-2" "https://a.example/x" (Some "again") None])).
Proof. vm_compute. reflexivity. Qed.

Lemma duplicate_url_links_to_last_witness :
  ∃ s0 s2,
    assign_source_ids "1b9d6bcd" sample_raw_sources !! 0%nat = Some s0
    ∧ assign_source_ids "1b9d6bcd" sample_raw_sources !! 2%nat = Some s2
    ∧ Source.url s0 = Source.url s2
    ∧ url_to_source_id (assign_source_ids "1b9d6bcd" sample_raw_sources)
        !! Source.url s2 = Some (Source.id s2)
    ∧ Source.id s0 ≠ Source.id s2
    ∧ Forall2 (linked_to_last (assign_source_ids "1b9d6bcd" sample_raw_sources)
                              s0 s2)
        sample_raw_claims
        (link_claims (assign_source_ids "1b9d6bcd" sample_raw_sources)
                     sample_raw_claims).
Proof.
  eexists _, _.
  assert (H0 : assign_source_ids "1b9d6bcd" sample_raw_sources !! 0%nat
               = Some (Source.mk "source-1b9d6bcd-0" "https://a.example/x"
                                 None None))
    by (vm_compute; reflexivity).
  assert (H2 : assign_source_ids "1b9d6bcd" sample_raw_sources !! 2%nat
               = Some (Source.mk "source-1b9d6bcd-2" "https://a.example/x"
                                 (Some "again") None))
    by (vm_compute; reflexivity).
  split; [exact H0|]. split; [exact H2|]. split; [reflexivity|].
  assert (Hlast : ∀ k s_k, (2 < k)%nat →
            assign_source_ids "1b9d6bcd" sample_raw_sources !! k = Some s_k →
            Source.url s_k ≠ "https://a.example/x").
  { intros k s_k Hk Hs. apply lookup_lt_Some in Hs.
    unfold assign_source_ids in Hs. rewrite length_imap in Hs.
    simpl in Hs. lia. }
  destruct (duplicate_url_links_to_last "1b9d6bcd" sample_raw_sources
              sample_raw_claims 0 2 _ _ H0 H2 ltac:(lia) eq_refl Hlast)
    as (Hd & Hne & Hlinked & _).
  split; [exact Hd|]. split; [exact Hne | exact Hlinked].
Defined.

Lemma validate_report_spec_witness :
  ∃ output st',
    validate_report "report" failing_extractor stub_validator
                    (Some stub_firecrawl) stub_state
    = (Returns output, st')
    ∧ output = None.
Proof.
  destruct (validate_report_spec "report" failing_extractor stub_validator
              (Some stub_firecrawl) stub_state)
    as (extracted & st1 & output & st' & Hex & Hrun & Hnone & _).
  exists output, st'. split; [exact Hrun|].
  apply Hnone. left. vm_compute in Hex. by injection Hex as <- _.
Defined.

Example validate_report_stub :
  ∃ report results extracted st',
    validate_report "report" stub_extractor stub_validator
                    (Some stub_firecrawl) stub_state
    = (Returns (Some (report, results, extracted)), st')
    ∧ TrustReport.trust_score report = (1000 # 10)%Q
    ∧ (ValidationResult.claim_id <$> results) = ["claim-1b9d6bcd-0"]
    ∧ (Source.content <$> ExtractedReport.sources extracted)
      = [Some ("Title" +:+ nl +:+ nl +:+ "Body");
         Some "Error fetching content from https://c.example/z: timeout";
         Some ("Title" +:+ nl +:+ nl +:+ "Body")].
Proof. eexists _, _, _, _. vm_compute. repeat split. Qed.

(** C7, as stated, fails: handed no client, retrieval gives the list back
    as it came, so a source that had no content still has none. *)
Lemma fetch_sources_without_client :
  ¬ spec_all_fetched [unfetched_source] None stub_state.
Proof.
  intros (fetched & st' & Hrun & Hall).
  injection Hrun as <- _.
  apply Forall_cons in Hall as [Hc _]. by apply Hc.
Qed.

Lemma fetch_sources_spec_witness :
  ∃ fetched st',
    fetch_sources sample_raw_sources (Some stub_firecrawl) stub_state
    = (Returns fetched, st')
    ∧ length fetched = 3%nat
    ∧ Forall (λ s, Source.content s ≠ None) fetched
    ∧ ∃ s',
        fetched !! 1%nat = Some s'
        ∧ Source.content s'
          = Some "Error fetching content from https://c.example/z: timeout".
Proof.
  destruct (fetch_sources_spec sample_raw_sources stub_firecrawl stub_state)
    as ((fetched & st' & Hrun & Hlen & _ & Hall & Hpos) & _).
  exists fetched, st'. split; [exact Hrun|]. split; [exact Hlen|].
  split; [exact Hall|].
  destruct (Hpos [Source.mk "" "https://a.example/x" None None]
                 (Source.mk "" "https://c.example/z" None None)
                 [Source.mk "" "https://a.example/x" (Some "again") None]
                 eq_refl)
    as (fpre & st1 & s' & _ & Hs' & Hret).
  exists s'. split; [exact Hs'|].
  destruct Hret as (_ & _ & _ & Hc). exact Hc.
Defined.

(** * Further properties of the code *)

(** ** The scorer: range, monotonicity, uniform lists *)

Section ScorerRange.
Local Open Scope Q_scope.

Lemma round_half_even_bounds x :
  (Qfloor x ≤ round_half_even x ≤ Qfloor x + 1)%Z.
Proof.
  unfold round_half_even.
  destruct (x - inject_Z (Qfloor x) ?= 1 # 2); [destruct (Z.even _)|..]; lia.
Qed.

Lemma round_half_even_mono x y :
  x <= y → (round_half_even x ≤ round_half_even y)%Z.
Proof.
  intros Hxy. pose proof (Qfloor_resp_le _ _ Hxy) as Hf.
  destruct (Z.eq_dec (Qfloor x) (Qfloor y)) as [E|E].
  - unfold round_half_even. rewrite E.
    destruct (Qcompare_spec (x - inject_Z (Qfloor y)) (1 # 2)) as [Hx|Hx|Hx],
             (Qcompare_spec (y - inject_Z (Qfloor y)) (1 # 2)) as [Hy|Hy|Hy];
      try (exfalso; lra); try destruct (Z.even (Qfloor y)); lia.
  - pose proof (round_half_even_bounds x). pose proof (round_half_even_bounds y).
    lia.
Qed.

Lemma round1_mono x y : x <= y → round1 x <= round1 y.
Proof.
  intros Hxy. unfold round1, Qdiv.
  apply Qmult_le_compat_r; [|discriminate].
  rewrite <- Zle_Qle. apply round_half_even_mono. lra.
Qed.

Lemma round_half_even_inject_Z z : round_half_even (inject_Z z) = z.
Proof.
  unfold round_half_even. rewrite Qfloor_Z.
  assert (H : (inject_Z z - inject_Z z ?= 1 # 2) = Lt).
  { apply Qlt_alt.
    assert (E : inject_Z z - inject_Z z == 0) by ring.
    rewrite E. reflexivity. }
  by rewrite H.
Qed.

Lemma round1_inject_Z z : round1 (inject_Z z) == inject_Z z.
Proof.
  unfold round1.
  assert (H : inject_Z z * 10 == inject_Z (z * 10)).
  { rewrite inject_Z_mult. reflexivity. }
  rewrite (round_half_even_comp _ _ H), round_half_even_inject_Z.
  rewrite inject_Z_mult. field.
Qed.

Lemma spec_weight_le_1 s : spec_weight s <= 1.
Proof. destruct s; simpl; discriminate. Qed.

Lemma inject_Z_length_cons {A} (x : A) l :
  inject_Z (Z.of_nat (length (x :: l))) == 1 + inject_Z (Z.of_nat (length l)).
Proof.
  simpl length. rewrite Nat2Z.inj_succ. unfold Z.succ.
  rewrite inject_Z_plus. change (inject_Z 1) with 1. ring.
Qed.

Lemma inject_Z_length_pos {A} (x : A) l :
  0 < inject_Z (Z.of_nat (length (x :: l))).
Proof.
  change 0 with (inject_Z 0). rewrite <- Zlt_Qlt. simpl. lia.
Qed.

Lemma spec_sum_le_length rs :
  foldr (λ r a, spec_weight (ValidationResult.status r) + a) 0 rs
  <= inject_Z (Z.of_nat (length rs)).
Proof.
  induction rs as [|r rs IH]; [discriminate|].
  rewrite inject_Z_length_cons. simpl foldr.
  pose proof (spec_weight_le_1 (ValidationResult.status r)). lra.
Qed.

Lemma spec_base_le_100 rs : spec_base rs <= 100.
Proof.
  destruct rs as [|r rs]; [discriminate|]. unfold spec_base.
  pose proof (inject_Z_length_pos r rs) as Hpos.
  pose proof (spec_sum_le_length (r :: rs)) as Hsum.
  assert (H1 : foldr (λ r a, spec_weight (ValidationResult.status r) + a) 0
                     (r :: rs)
               / inject_Z (Z.of_nat (length (r :: rs))) <= 1).
  { apply Qle_shift_div_r; [exact Hpos | lra]. }
  lra.
Qed.

Lemma applied_penalty_range rs : (0 ≤ applied_penalty rs ≤ 20)%Z.
Proof. rewrite applied_penalty_spec. unfold spec_penalty. lia. Qed.

(** The value under the final rounding grows with the base and shrinks with
    the penalty. *)
Lemma score_core_mono b1 b2 (p1 p2 : Z) :
  b1 <= b2 → (p2 ≤ p1)%Z →
  round1 (Qmax 0 (b1 - inject_Z p1)) <= round1 (Qmax 0 (b2 - inject_Z p2)).
Proof.
  intros Hb Hp. apply round1_mono.
  apply Q.max_le_compat; [lra|].
  rewrite Zle_Qle in Hp. lra.
Qed.

(** X1. The score never exceeds 100. *)
Theorem calculate_trust_score_le_100 (rs : list ValidationResult.t) :
  calculate_trust_score rs <= 100.
Proof.
  destruct rs as [|r rs]; [discriminate|].
  rewrite calculate_trust_score_unfold.
  rewrite <- (round1_inject_Z 100). apply round1_mono.
  apply Q.max_lub; [discriminate|].
  pose proof (spec_base_le_100 (r :: rs)).
  pose proof (applied_penalty_range (r :: rs)) as [Hp _].
  rewrite Zle_Qle in Hp. change (inject_Z 100) with 100.
  change (inject_Z 0) with 0 in Hp. lra.
Qed.

Lemma no_worse_sum rs1 rs2 :
  Forall2 no_worse rs1 rs2 →
  foldr (λ r a, spec_weight (ValidationResult.status r) + a) 0 rs1
  <= foldr (λ r a, spec_weight (ValidationResult.status r) + a) 0 rs2.
Proof.
  induction 1 as [|r1 r2 l1 l2 [Hw _] _ IH]; simpl; [discriminate|].
  rewrite !weights_get_spec in Hw. lra.
Qed.

Lemma no_worse_flagged rs1 rs2 :
  Forall2 no_worse rs1 rs2 → flagged rs1 = flagged rs2.
Proof.
  unfold flagged. induction 1 as [|r1 r2 l1 l2 [_ Hf] _ IH]; [done|].
  rewrite !filter_cons, Hf.
  destruct (decide (ValidationResult.has_contradictions r2 = true));
    simpl; by rewrite IH.
Qed.

(** X2. Replacing verdicts by ones that weigh at least as much, flags
    unchanged, never lowers the score. *)
Theorem calculate_trust_score_monotone (rs1 rs2 : list ValidationResult.t) :
  Forall2 no_worse rs1 rs2 →
  calculate_trust_score rs1 <= calculate_trust_score rs2.
Proof.
  intros H.
  pose proof (no_worse_sum _ _ H) as Hsum.
  pose proof (no_worse_flagged _ _ H) as Hfl.
  pose proof (Forall2_length _ _ _ H) as Hlen.
  destruct H as [|r1 r2 l1 l2 _ _]; [discriminate|].
  rewrite !calculate_trust_score_unfold, !applied_penalty_spec.
  unfold spec_penalty. rewrite Hfl.
  apply score_core_mono; [|lia].
  unfold spec_base. rewrite Hlen.
  pose proof (inject_Z_length_pos r2 l2) as Hpos.
  apply Qmult_le_compat_r; [|discriminate].
  unfold Qdiv. apply Qmult_le_compat_r; [exact Hsum|].
  apply Qlt_le_weak, Qinv_lt_0_compat, Hpos.
Qed.

Lemma more_flagged_flagged rs1 rs2 :
  Forall2 more_flagged rs1 rs2 → (flagged rs1 ≤ flagged rs2)%nat.
Proof.
  unfold flagged. induction 1 as [|r1 r2 l1 l2 [_ Hf] _ IH]; [done|].
  rewrite !filter_cons.
  destruct (decide (ValidationResult.has_contradictions r1 = true)) as [E1|E1].
  - rewrite decide_True by auto. simpl. lia.
  - destruct (decide (ValidationResult.has_contradictions r2 = true));
      simpl; lia.
Qed.

Lemma more_flagged_sum rs1 rs2 :
  Forall2 more_flagged rs1 rs2 →
  foldr (λ r a, spec_weight (ValidationResult.status r) + a) 0 rs1
  = foldr (λ r a, spec_weight (ValidationResult.status r) + a) 0 rs2.
Proof.
  induction 1 as [|r1 r2 l1 l2 [Hs _] _ IH]; simpl; [done|].
  by rewrite Hs, IH.
Qed.

(** X3. Flagging more results as contradictory, verdicts unchanged, never
    raises the score. *)
Theorem calculate_trust_score_flags_antitone
    (rs1 rs2 : list ValidationResult.t) :
  Forall2 more_flagged rs1 rs2 →
  calculate_trust_score rs2 <= calculate_trust_score rs1.
Proof.
  intros H.
  pose proof (more_flagged_sum _ _ H) as Hsum.
  pose proof (more_flagged_flagged _ _ H) as Hfl.
  pose proof (Forall2_length _ _ _ H) as Hlen.
  destruct H as [|r1 r2 l1 l2 _ _]; [discriminate|].
  rewrite !calculate_trust_score_unfold, !applied_penalty_spec.
  apply score_core_mono.
  - unfold spec_base. rewrite Hsum, Hlen. apply Qle_refl.
  - unfold spec_penalty. lia.
Qed.

Lemma uniform_sum s rs :
  Forall (λ r, ValidationResult.status r = s) rs →
  foldr (λ r a, spec_weight (ValidationResult.status r) + a) 0 rs
  == inject_Z (Z.of_nat (length rs)) * spec_weight s.
Proof.
  induction 1 as [|r rs Hr _ IH]; [simpl; ring|].
  rewrite inject_Z_length_cons. simpl foldr. rewrite IH, Hr. ring.
Qed.

Lemma weight_percent_spec s : spec_weight s * 100 == inject_Z (weight_percent s).
Proof. destruct s; reflexivity. Qed.

Lemma Qmax_inject_Z a b : Qmax (inject_Z a) (inject_Z b) == inject_Z (Z.max a b).
Proof.
  destruct (Z.le_ge_cases a b) as [H|H].
  - rewrite Z.max_r by done. apply Q.max_r. by rewrite <- Zle_Qle.
  - rewrite Z.max_l by done. apply Q.max_l. by rewrite <- Zle_Qle.
Qed.

(** X4. When every result has the same status the score is that status's
    weight as a percentage minus the penalty, floored at 0: 100 minus the
    penalty for SUPPORTED, 0 for CONTRADICTED whatever the flags. *)
Theorem calculate_trust_score_uniform (s : Status)
    (rs : list ValidationResult.t) :
  rs ≠ [] →
  Forall (λ r, ValidationResult.status r = s) rs →
  calculate_trust_score rs
  == inject_Z (Z.max 0 (weight_percent s - applied_penalty rs)).
Proof.
  intros Hne Hall. destruct rs as [|r rs]; [done|].
  rewrite calculate_trust_score_unfold.
  assert (Hb : spec_base (r :: rs) == inject_Z (weight_percent s)).
  { unfold spec_base. rewrite (uniform_sum s) by done.
    rewrite <- weight_percent_spec.
    pose proof (inject_Z_length_pos r rs) as Hpos. field.
    intros H0. rewrite H0 in Hpos. by apply Qlt_irrefl in Hpos. }
  etransitivity; [|apply round1_inject_Z]. apply round1_comp.
  rewrite <- Qmax_inject_Z.
  apply Q.max_compat; [reflexivity|].
  unfold Z.sub. rewrite inject_Z_plus, inject_Z_opp, Hb. reflexivity.
Qed.

End ScorerRange.

(** ** Cleaning: what it keeps, what it guarantees *)

Lemma non_space_append s1 s2 :
  non_space (s1 +:+ s2) = non_space s1 +:+ non_space s2.
Proof.
  induction s1 as [|c s1 IH]; [done|]. rewrite append_cons. simpl.
  destruct (is_space c); [done|]. by rewrite append_cons, IH.
Qed.

Lemma non_space_all_space run : all_space run = true → non_space run = "".
Proof.
  induction run as [|c run IH]; [done|]. simpl.
  intros [Hc Hrun]%andb_true_iff. rewrite Hc. by apply IH.
Qed.

Lemma all_space_flush_run run :
  all_space run = true → all_space (flush_run run) = true.
Proof. intros H. unfold flush_run. by destruct (_ <=? _)%nat. Qed.

Lemma non_space_re_sub_ws3_go run s :
  all_space run = true → non_space (re_sub_ws3_go run s) = non_space s.
Proof.
  revert run. induction s as [|c s IH]; intros run Hrun; simpl.
  - by apply non_space_all_space, all_space_flush_run.
  - destruct (is_space c) eqn:Hc.
    + apply IH. rewrite all_space_append, Hrun. simpl. by rewrite Hc.
    + rewrite non_space_append, non_space_all_space
        by by apply all_space_flush_run.
      rewrite append_nil_l. simpl. rewrite Hc. f_equal. by apply IH.
Qed.

Lemma non_space_lstrip s : non_space (lstrip s) = non_space s.
Proof.
  induction s as [|c s IH]; [done|]. simpl.
  destruct (is_space c) eqn:Hc; [done|]. simpl. by rewrite Hc.
Qed.

Lemma non_space_rstrip s : non_space (rstrip s) = non_space s.
Proof.
  induction s as [|c s IH]; [done|]. simpl.
  destruct (rstrip s) as [|d t].
  - simpl in IH. rewrite <- IH.
    destruct (is_space c) eqn:Hc; [done|]. simpl. by rewrite Hc.
  - simpl. simpl in IH. by rewrite IH.
Qed.

(** X5. Cleaning removes and rewrites whitespace only: the characters that
    are not whitespace come out unchanged and in the same order. *)
Theorem clean_keeps_text (markdown : string) :
  non_space (clean markdown) = non_space markdown.
Proof.
  unfold clean, strip, re_sub_ws3.
  by rewrite non_space_rstrip, non_space_lstrip, non_space_re_sub_ws3_go.
Qed.

Lemma length_flush_run run :
  (String.length (flush_run run) ≤ String.length run)%nat.
Proof.
  unfold flush_run. destruct (Nat.leb_spec 3 (String.length run)); [|done].
  change (String.length (nl +:+ nl)) with 2%nat. lia.
Qed.

Lemma length_re_sub_ws3_go run s :
  (String.length (re_sub_ws3_go run s)
   ≤ String.length run + String.length s)%nat.
Proof.
  revert run. induction s as [|c s IH]; intros run; simpl.
  - pose proof (length_flush_run run). lia.
  - destruct (is_space c).
    + etransitivity; [apply IH|]. rewrite length_append. simpl. lia.
    + rewrite length_append. simpl.
      pose proof (length_flush_run run). pose proof (IH ""). simpl in *. lia.
Qed.

Lemma length_lstrip s : (String.length (lstrip s) ≤ String.length s)%nat.
Proof.
  induction s as [|c s IH]; [done|]. simpl.
  destruct (is_space c); simpl; lia.
Qed.

Lemma length_rstrip s : (String.length (rstrip s) ≤ String.length s)%nat.
Proof.
  induction s as [|c s IH]; [done|]. simpl.
  destruct (rstrip s) as [|d t]; [destruct (is_space c)|]; simpl in *; lia.
Qed.

(** X6. Cleaning never makes the text longer. *)
Theorem clean_no_longer (markdown : string) :
  (String.length (clean markdown) ≤ String.length markdown)%nat.
Proof.
  unfold clean, strip, re_sub_ws3.
  etransitivity; [apply length_rstrip|].
  etransitivity; [apply length_lstrip|].
  apply (length_re_sub_ws3_go "" markdown).
Qed.

Lemma no_ws3_from_weaken k k' s :
  (k' ≤ k)%nat → no_ws3_from k s = true → no_ws3_from k' s = true.
Proof.
  revert k k'. induction s as [|c s IH]; intros k k' Hk; [done|]. simpl.
  destruct (is_space c); [|done].
  intros [Hlt Hs]%andb_true_iff. apply Nat.ltb_lt in Hlt.
  apply andb_true_iff. split; [apply Nat.ltb_lt; lia|].
  apply (IH (S k)); [lia | done].
Qed.

Lemma no_ws3_lstrip k s :
  no_ws3_from k s = true → no_ws3_from 0 (lstrip s) = true.
Proof.
  revert k. induction s as [|c s IH]; intros k; [done|]. simpl.
  destruct (is_space c) eqn:Hc.
  - intros [_ Hs]%andb_true_iff. by apply (IH (S k)).
  - intros Hs. simpl. by rewrite Hc.
Qed.

Lemma no_ws3_rstrip k s :
  no_ws3_from k s = true → no_ws3_from k (rstrip s) = true.
Proof.
  revert k. induction s as [|c s IH]; intros k; [done|]. simpl.
  destruct (rstrip s) as [|d t] eqn:E.
  - intros _. destruct (is_space c) eqn:Hc; [done|]. simpl. by rewrite Hc.
  - simpl. destruct (is_space c).
    + intros [Hk Hs]%andb_true_iff. rewrite Hk. simpl. by apply IH.
    + by apply IH.
Qed.

(** X7. The cleaned text has no whitespace run of three or more characters
    and neither begins nor ends with whitespace. *)
Theorem clean_shape (markdown : string) :
  no_ws3_from 0 (clean markdown) = true
  ∧ head_not_space (clean markdown) = true
  ∧ last_not_space (clean markdown) = true.
Proof.
  unfold clean. split; [|apply strip_trimmed].
  unfold strip. apply no_ws3_rstrip, (no_ws3_lstrip 0), re_sub_ws3_no_ws3.
Qed.

Lemma re_sub_ws3_go_fixed run s :
  all_space run = true →
  no_ws3_from (String.length run) s = true →
  (String.length run < 3)%nat →
  re_sub_ws3_go run s = run +:+ s.
Proof.
  revert run. induction s as [|c s IH]; intros run Hrun Hs Hlen.
  - simpl. unfold flush_run.
    rewrite (proj2 (Nat.leb_gt _ _) Hlen). by rewrite append_nil_r.
  - simpl in *. destruct (is_space c) eqn:Hc.
    + apply andb_true_iff in Hs as [Hk Hs]. apply Nat.ltb_lt in Hk.
      rewrite IH.
      * by rewrite append_assoc.
      * rewrite all_space_append, Hrun. simpl. by rewrite Hc.
      * rewrite length_append. simpl.
        by rewrite Nat.add_1_r.
      * rewrite length_append. simpl. lia.
    + rewrite (IH "") by (done || (simpl; lia)). rewrite append_nil_l.
      unfold flush_run. by rewrite (proj2 (Nat.leb_gt _ _) Hlen).
Qed.

Lemma lstrip_fixed s : head_not_space s = true → lstrip s = s.
Proof.
  destruct s as [|c s]; [done|]. simpl.
  intros Hc%negb_true_iff. by rewrite Hc.
Qed.

Lemma rstrip_fixed s : last_not_space s = true → rstrip s = s.
Proof.
  induction s as [|c s IH]; [done|]. simpl.
  destruct s as [|d s'].
  - simpl. intros Hc%negb_true_iff. by rewrite Hc.
  - intros Hs. by rewrite (IH Hs).
Qed.

(** X8. Cleaning is idempotent: cleaned text is left as it is. *)
Theorem clean_idempotent (markdown : string) :
  clean (clean markdown) = clean markdown.
Proof.
  assert (Hws : no_ws3_from 0 (clean markdown) = true).
  { unfold clean, strip.
    apply no_ws3_rstrip, (no_ws3_lstrip 0), re_sub_ws3_no_ws3. }
  destruct (strip_trimmed (re_sub_ws3 markdown)) as (Hhead & Hlast).
  fold (clean markdown) in Hhead, Hlast.
  unfold clean at 1. unfold re_sub_ws3.
  rewrite re_sub_ws3_go_fixed, append_nil_l by (done || (simpl; lia)).
  unfold strip. by rewrite lstrip_fixed, rstrip_fixed.
Qed.

Lemma head_not_space_no_text s :
  head_not_space s = true → non_space s = "" → s = "".
Proof.
  destruct s as [|c s]; [done|]. simpl.
  intros Hc%negb_true_iff. by rewrite Hc.
Qed.

(** A page that is nothing but whitespace is cleaned to the empty string. *)
Lemma clean_blank (markdown : string) :
  all_space markdown = true → clean markdown = "".
Proof.
  intros H. apply head_not_space_no_text; [apply strip_trimmed|].
  unfold clean, strip, re_sub_ws3.
  rewrite non_space_rstrip, non_space_lstrip, non_space_re_sub_ws3_go by done.
  by apply non_space_all_space.
Qed.

(** ** Linking: identifiers, lengths, distinct URLs *)

Lemma assign_claim_ids_lookup report_id claims k c :
  assign_claim_ids report_id claims !! k = Some c →
  Claim.id c = "claim-" +:+ report_id +:+ "-" +:+ pretty k.
Proof.
  unfold assign_claim_ids. rewrite list_lookup_imap_Some.
  intros (c0 & _ & ->). reflexivity.
Qed.

Lemma link_claims_ids sources claims :
  Claim.id <$> link_claims sources claims = Claim.id <$> claims.
Proof.
  unfold link_claims. rewrite <- list_fmap_compose.
  apply list_fmap_ext. by intros _ c _.
Qed.

Lemma assign_source_ids_NoDup report_id sources :
  NoDup (Source.id <$> assign_source_ids report_id sources).
Proof.
  apply NoDup_alt. intros i j x.
  rewrite !list_lookup_fmap.
  destruct (assign_source_ids report_id sources !! i) as [s_i|] eqn:Hi; [|done].
  destruct (assign_source_ids report_id sources !! j) as [s_j|] eqn:Hj; [|done].
  simpl. intros [= <-] [= Heq].
  eapply assign_source_ids_inj; eauto.
Qed.

Lemma assign_claim_ids_NoDup report_id claims :
  NoDup (Claim.id <$> assign_claim_ids report_id claims).
Proof.
  apply NoDup_alt. intros i j x.
  rewrite !list_lookup_fmap.
  destruct (assign_claim_ids report_id claims !! i) as [c_i|] eqn:Hi; [|done].
  destruct (assign_claim_ids report_id claims !! j) as [c_j|] eqn:Hj; [|done].
  simpl. intros [= <-] [= Heq].
  rewrite (assign_claim_ids_lookup _ _ _ _ Hi),
          (assign_claim_ids_lookup _ _ _ _ Hj) in Heq.
  do 3 apply String.app_inj in Heq. by apply pretty_nat_inj in Heq.
Qed.

Lemma source_id_not_claim_id report_id a b :
  "source-" +:+ report_id +:+ "-" +:+ a ≠ "claim-" +:+ report_id +:+ "-" +:+ b.
Proof. rewrite !append_cons. discriminate. Qed.

Section ExtractionMore.
Context {W : Type} `{!Env W}.
Implicit Types (st : @State W) (extractor_client : @ExtractorClient W).

(** X9. In an extraction result the source ids are pairwise distinct, the
    claim ids are pairwise distinct, and no source id is a claim id. *)
Theorem extract_claims_and_sources_unique_ids
    report_text extractor_client st ex st' :
  extract_claims_and_sources report_text extractor_client st
  = (Returns (Some ex), st') →
  NoDup (Source.id <$> ExtractedReport.sources ex)
  ∧ NoDup (Claim.id <$> ExtractedReport.claims ex)
  ∧ ∀ s c, s ∈ ExtractedReport.sources ex → c ∈ ExtractedReport.claims ex →
           Source.id s ≠ Claim.id c.
Proof.
  destruct (extract_claims_and_sources_run report_text extractor_client st)
    as (st0 & Hrun & _).
  rewrite Hrun. intros [= Hex _].
  destruct (extractor_client _ _).1 as [result|e]; [|done].
  injection Hex as <-. simpl.
  split; [apply assign_source_ids_NoDup|].
  split; [rewrite link_claims_ids; apply assign_claim_ids_NoDup|].
  intros s c Hs Hc.
  apply list_elem_of_lookup in Hs as [i Hi].
  apply (list_elem_of_fmap_2 Claim.id) in Hc. rewrite link_claims_ids in Hc.
  apply list_elem_of_fmap in Hc as (c0 & -> & Hc0).
  apply list_elem_of_lookup in Hc0 as [j Hj].
  rewrite (assign_source_ids_lookup _ _ _ _ Hi),
          (assign_claim_ids_lookup _ _ _ _ Hj).
  apply source_id_not_claim_id.
Qed.

(** X10. Extraction passes on what the capability returned: as many claims
    and sources, in the same order, with statement, question and cited URLs
    of each claim and URL, title and content of each source untouched. *)
Theorem extract_claims_and_sources_keeps_data
    report_text extractor_client st result :
  (extractor_client (extractor_messages report_text) (uuid4 (world st)).2).1
  = Returns result →
  ∃ ex st',
    extract_claims_and_sources report_text extractor_client st
    = (Returns (Some ex), st')
    ∧ Forall2 same_claim_text (ExtractedReport.claims result)
                              (ExtractedReport.claims ex)
    ∧ Forall2 same_source_data (ExtractedReport.sources result)
                               (ExtractedReport.sources ex).
Proof.
  intros Hres.
  destruct (extract_claims_and_sources_run report_text extractor_client st)
    as (st' & Hrun & _).
  rewrite Hres in Hrun. eexists _, st'. split; [exact Hrun|]. simpl.
  split.
  - unfold link_claims, assign_claim_ids.
    apply Forall2_fmap_r, Forall2_same_length_lookup.
    split; [by rewrite length_imap|].
    intros i c c' Hc Hc'. rewrite list_lookup_imap, Hc in Hc'.
    by injection Hc' as <-.
  - unfold assign_source_ids.
    apply Forall2_same_length_lookup.
    split; [by rewrite length_imap|].
    intros i s s' Hs Hs'. rewrite list_lookup_imap, Hs in Hs'.
    by injection Hs' as <-.
Qed.

End ExtractionMore.

(** X11. Linking yields at most one id per cited URL, and exactly one per
    URL precisely when every cited URL is the URL of a source. *)
Theorem link_source_ids_length (sources : list Source.t)
    (source_urls : list string) :
  (length (link_source_ids (url_to_source_id sources) source_urls)
   ≤ length source_urls)%nat
  ∧ (length (link_source_ids (url_to_source_id sources) source_urls)
     = length source_urls
     ↔ ∀ url, url ∈ source_urls → ∃ s, s ∈ sources ∧ Source.url s = url).
Proof.
  rewrite link_source_ids_omap.
  set (d := url_to_source_id sources).
  assert (Hkey : ∀ url, is_Some (d !! url)
                        ↔ ∃ s, s ∈ sources ∧ Source.url s = url).
  { intros url. split.
    - intros [id Hid].
      destruct (url_to_source_id_Some _ _ _ Hid) as (k & s & Hk & Hu & _).
      exists s. split; [by eapply list_elem_of_lookup_2 | done].
    - intros (s & Hs & Hu). apply not_eq_None_Some. intros Hn.
      unfold d in Hn. rewrite url_to_source_id_None in Hn. by apply (Hn s). }
  unfold omap.
  induction source_urls as [|u urls [IHle IHeq]]; simpl.
  - split; [done|]. split; [|done]. intros _ url Hin. by apply elem_of_nil in Hin.
  - destruct (d !! u) as [id|] eqn:Hu; simpl.
    + split; [lia|]. split.
      * intros [= Hlen] url [->|Hin]%elem_of_cons.
        -- apply Hkey. rewrite Hu. eauto.
        -- by apply IHeq.
      * intros Hall. f_equal. apply IHeq. intros url Hin.
        apply Hall. by right.
    + split; [lia|]. split; [lia|].
      intros Hall. destruct (proj2 (Hkey u)) as [id Hid].
      * apply Hall. by left.
      * congruence.
Qed.

(** X12. When the sources have pairwise distinct URLs, every source is
    reachable: its URL maps to its own id. *)
Theorem url_to_source_id_distinct_urls (sources : list Source.t) s :
  NoDup (Source.url <$> sources) →
  s ∈ sources →
  url_to_source_id sources !! Source.url s = Some (Source.id s).
Proof.
  intros Hnd [k Hk]%list_elem_of_lookup.
  apply (url_to_source_id_last _ k); [done|].
  intros k' s' Hlt Hk' Heq.
  assert (k = k'); [|lia].
  eapply (NoDup_lookup _ _ _ _ Hnd); rewrite list_lookup_fmap.
  - by rewrite Hk.
  - rewrite Hk'. simpl. by rewrite Heq.
Qed.

(** ** Validation: what is kept of a verdict, which calls are made *)

Lemma validator_calls_cons claim claims sources :
  validator_calls (claim :: claims) sources
  = (if decide (claim_sources claim sources ≠ [])
     then [ValidatorCall (claim_messages claim sources)] else [])
    ++ validator_calls claims sources.
Proof.
  unfold validator_calls. rewrite filter_cons.
  by destruct (decide (claim_sources claim sources ≠ [])).
Qed.

Lemma claim_sources_no_ids claim sources :
  Claim.source_ids claim = [] → claim_sources claim sources = [].
Proof.
  intros Hids.
  destruct (claim_sources claim sources) as [|s l] eqn:E; [done|].
  assert (Hin : s ∈ claim_sources claim sources) by (rewrite E; by left).
  apply claim_sources_usable in Hin as [_ [Hid _]].
  rewrite Hids in Hid. by apply elem_of_nil in Hid.
Qed.

Section ValidationMore.
Context {W : Type}.
Implicit Types (st : @State W) (validator_client : @ValidatorClient W).

(** X13. When a claim has evidence and the capability answers, the result
    carries the capability's status, confidence, reasoning and flag under
    the claim's identity, and exactly one call, with the claim's messages,
    is logged. *)
Theorem validate_claim_keeps_verdict claim sources validator_client st result :
  claim_sources claim sources ≠ [] →
  (validator_client (claim_messages claim sources) (world st)).1
  = Returns result →
  ∃ r st',
    validate_claim claim sources validator_client st = (Returns (Some r), st')
    ∧ ValidationResult.status r = ValidationResult.status result
    ∧ ValidationResult.confidence r = ValidationResult.confidence result
    ∧ ValidationResult.reasoning r = ValidationResult.reasoning result
    ∧ ValidationResult.has_contradictions r
      = ValidationResult.has_contradictions result
    ∧ answers claim r
    ∧ trace st' = trace st ++ [ValidatorCall (claim_messages claim sources)].
Proof.
  intros Hne Hres. eexists _, _.
  split; [by apply validate_claim_evidence|].
  rewrite Hres. repeat split.
Qed.

Lemma validate_claim_trace claim sources validator_client st :
  ∃ r st',
    validate_claim claim sources validator_client st = (Returns (Some r), st')
    ∧ trace st'
      = trace st
        ++ (if decide (claim_sources claim sources ≠ [])
            then [ValidatorCall (claim_messages claim sources)] else []).
Proof.
  destruct (decide (claim_sources claim sources ≠ [])) as [Hne|He].
  - eexists _, _. split; [by apply validate_claim_evidence | done].
  - apply dec_stable in He. eexists _, _.
    split; [by apply validate_claim_no_evidence | by rewrite app_nil_r].
Qed.

Lemma validate_all_claims_loop_trace claims sources validator_client results st :
  ∃ rs st',
    validate_all_claims_loop claims sources validator_client results st
    = (Returns rs, st')
    ∧ trace st' = trace st ++ validator_calls claims sources.
Proof.
  revert results st. induction claims as [|claim rest IH]; intros results st.
  - exists results, st. split; [done|]. by rewrite app_nil_r.
  - destruct (validate_claim_trace claim sources validator_client st)
      as (r & st1 & Hr & Htr).
    destruct (IH (results ++ [r]) st1) as (rs & st' & Hrun & Htr').
    exists rs, st'. split.
    + simpl. run_m. rewrite Hr. exact Hrun.
    + rewrite Htr', Htr, validator_calls_cons, app_assoc. reflexivity.
Qed.

(** X14. A batch calls the judgment capability once for each claim that has
    evidence, in claim order, and makes no other call. *)
Theorem validate_all_claims_calls claims sources validator_client st :
  ∃ results st',
    validate_all_claims claims sources validator_client st
    = (Returns results, st')
    ∧ trace st' = trace st ++ validator_calls claims sources.
Proof. apply validate_all_claims_loop_trace. Qed.

Lemma validate_all_claims_loop_no_evidence claims sources validator_client
    results st :
  (∀ claim, claim ∈ claims → claim_sources claim sources = []) →
  validate_all_claims_loop claims sources validator_client results st
  = (Returns (results ++ (no_sources_result <$> claims)), st).
Proof.
  revert results. induction claims as [|claim rest IH]; intros results Hall.
  - simpl. by rewrite app_nil_r.
  - simpl. run_m.
    rewrite validate_claim_no_evidence by (apply Hall; by left).
    change (validate_all_claims_loop rest sources validator_client
              (results ++ [no_sources_result claim]) st
            = (Returns (results ++ no_sources_result claim
                                   :: (no_sources_result <$> rest)), st)).
    rewrite IH by (intros c Hc; apply Hall; by right).
    by rewrite <- app_assoc.
Qed.

(** X15. A linked claim none of whose cited URLs is the URL of a source (in
    particular a claim citing nothing) has no source ids, and the validator
    answers it with the no-evidence verdict whatever sources it is given,
    leaving the state untouched. *)
Theorem unlinked_claim_unverifiable
    sources claims linked srcs validator_client st :
  linked ∈ link_claims sources claims →
  (∀ url s, url ∈ Claim.source_urls linked → s ∈ sources →
            Source.url s ≠ url) →
  Claim.source_ids linked = []
  ∧ validate_claim linked srcs validator_client st
    = (Returns (Some (no_sources_result linked)), st).
Proof.
  intros (claim & _ & ->)%link_claims_elem Hno. simpl in *.
  assert (Hids : omap (λ url, url_to_source_id sources !! url)
                      (Claim.source_urls claim) = []).
  { destruct (omap _ _) as [|id ids] eqn:E; [done|].
    assert (Hin : id ∈ omap (λ url, url_to_source_id sources !! url)
                       (Claim.source_urls claim)) by (rewrite E; by left).
    apply list_elem_of_omap in Hin as (url & Hurl & Hd).
    destruct (url_to_source_id_Some _ _ _ Hd) as (k & s & Hk & Hu & _).
    destruct (Hno url s); [done | by eapply list_elem_of_lookup_2 | done]. }
  split; [done|].
  apply validate_claim_no_evidence, claim_sources_no_ids. done.
Qed.

End ValidationMore.

(** ** Retrieval and evidence *)

Lemma retrieved_unusable source response fetched claim :
  retrieved source response fetched →
  unusable_response response →
  is_claim_source claim fetched = false.
Proof.
  intros (_ & _ & _ & Hc) Hun. unfold is_claim_source.
  apply andb_false_iff. right.
  destruct response as [result|e]; simpl in *.
  - destruct (result ≫= _) as [markdown|].
    + rewrite Hc. fold (clean markdown). by rewrite clean_blank.
    + rewrite Hc, fetch_error_rejected. apply andb_false_r.
  - rewrite Hc, fetch_error_rejected. apply andb_false_r.
Qed.

Section RetrievalMore.
Context {W : Type}.
Implicit Types (st : @State W) (app : @FirecrawlApp W).

Lemma fetch_sources_position app pre source post st fetched st' :
  fetch_sources (pre ++ source :: post) (Some app) st = (Returns fetched, st') →
  ∃ fetched_pre st1 s',
    fetch_sources pre (Some app) st = (Returns fetched_pre, st1)
    ∧ fetched !! length pre = Some s'
    ∧ retrieved source (app (Source.url source) (world st1)).1 s'.
Proof.
  simpl. intros Hrun.
  destruct (fetch_sources_loop_returns app pre st)
    as (fpre & st1 & Hpre & Hlpre & _).
  destruct (fetch_source_run app source st1) as (s' & Hs' & Hret & _).
  destruct (fetch_sources_loop_returns app post
              (mkState (app (Source.url source) (world st1)).2
                       (trace st1 ++ [ScrapeCall (Source.url source)])))
    as (fpost & st3 & Hpost & _).
  exists fpre, st1, s'. rewrite Hpre. simpl.
  split; [done|]. split; [|done].
  rewrite fetch_sources_loop_app, Hpre in Hrun. simpl in Hrun.
  revert Hrun. run_m. rewrite Hs'.
  change (fetch_sources_loop app post ([] ++ fpre ++ [s'])
            (mkState (app (Source.url source) (world st1)).2
                     (trace st1 ++ [ScrapeCall (Source.url source)]))
          = (Returns fetched, st') → fetched !! length pre = Some s').
  rewrite Hpost. simpl. rewrite <- app_assoc. intros [= <- _].
  rewrite <- Hlpre. apply list_lookup_middle. reflexivity.
Qed.

(** X16. A source whose scrape raised, came back without markdown, or came
    back as whitespace only is evidence for no claim: at its position the
    returned source keeps its id and fails the validator's filter. *)
Theorem failed_fetch_is_no_evidence app pre source post st fetched st' :
  fetch_sources (pre ++ source :: post) (Some app) st = (Returns fetched, st') →
  ∃ fetched_pre st1 s',
    fetch_sources pre (Some app) st = (Returns fetched_pre, st1)
    ∧ fetched !! length pre = Some s'
    ∧ Source.id s' = Source.id source
    ∧ (unusable_response (app (Source.url source) (world st1)).1 →
       ∀ claim, is_claim_source claim s' = false).
Proof.
  intros Hrun.
  destruct (fetch_sources_position _ _ _ _ _ _ _ Hrun)
    as (fpre & st1 & s' & Hpre & Hs' & Hret).
  exists fpre, st1, s'. split; [done|]. split; [done|].
  split; [apply Hret|].
  intros Hun claim. by eapply retrieved_unusable.
Qed.

Lemma fetch_sources_trace sources (firecrawl_app : option (@FirecrawlApp W)) st :
  ∃ fetched st',
    fetch_sources sources firecrawl_app st = (Returns fetched, st')
    ∧ trace st' = trace st ++ scrape_calls firecrawl_app sources.
Proof.
  destruct firecrawl_app as [app|]; simpl.
  - destruct (fetch_sources_loop_returns app sources st)
      as (fs & st' & Hrun & _ & Htr & _).
    exists fs, st'. by rewrite Hrun.
  - exists sources, st. by rewrite app_nil_r.
Qed.

End RetrievalMore.

(** ** The pipeline end to end *)

Lemma score_all_unverifiable (rs : list ValidationResult.t) :
  rs ≠ [] →
  Forall (λ r, r = no_sources_result (Claim.mk
                       (ValidationResult.claim_id r)
                       (ValidationResult.statement r)
                       (ValidationResult.verification_question r) [] [])) rs →
  (calculate_trust_score rs == 20)%Q.
Proof.
  intros Hne Hall. destruct rs as [|r rs]; [done|].
  assert (Hst : Forall (λ r, ValidationResult.status r = UNVERIFIABLE) (r :: rs)).
  { eapply Forall_impl; [exact Hall|]. intros x ->. reflexivity. }
  assert (Hfl : flagged (r :: rs) = 0%nat).
  { unfold flagged. clear Hst Hne.
    induction Hall as [|x l Hx _ IH]; [done|].
    rewrite filter_cons, decide_False; [exact IH|]. by rewrite Hx. }
  rewrite calculate_trust_score_unfold, applied_penalty_spec.
  unfold spec_penalty. rewrite Hfl. simpl Z.min.
  assert (Hb : (spec_base (r :: rs) == 20)%Q).
  { unfold spec_base. rewrite (uniform_sum UNVERIFIABLE) by done.
    pose proof (inject_Z_length_pos r rs) as Hpos. simpl spec_weight. field.
    intros H0. rewrite H0 in Hpos. by apply Qlt_irrefl in Hpos. }
  etransitivity; [|apply (round1_inject_Z 20)]. apply round1_comp.
  rewrite Q.max_r; rewrite Hb; [reflexivity | discriminate].
Qed.

Section PipelineMore.
Context {W : Type} `{!Env W}.
Implicit Types (st : @State W).

Lemma generate_trust_report_fields (rs : list ValidationResult.t) st report st' :
  generate_trust_report rs st = (Returns report, st') →
  TrustReport.claim_count report = Z.of_nat (length rs)
  ∧ TrustReport.trust_score report = calculate_trust_score rs
  ∧ TrustReport.has_contradictions report
    = existsb ValidationResult.has_contradictions rs
  ∧ trace st' = trace st.
Proof.
  destruct (tally_returns (W:=W) rs status_counts_init) as (d & Hrun & _).
  { intros s. rewrite status_counts_init_lookup. eauto. }
  unfold generate_trust_report. run_m. rewrite Hrun.
  destruct (uuid4 (world st)) as [u w1]. simpl.
  destruct (datetime_now_isoformat w1) as [ts w2]. simpl.
  by intros [= <- <-].
Qed.

(** X17. In a returned triple the results answer the extracted claims one
    for one and in order, there is at least one claim, the report counts
    exactly the claims, and its score and flag are computed from the
    returned results. *)
Theorem validate_report_traceable
    report_text extractor_client validator_client firecrawl_app st
    report results extracted st' :
  validate_report report_text extractor_client validator_client
                  firecrawl_app st
  = (Returns (Some (report, results, extracted)), st') →
  ExtractedReport.claims extracted ≠ []
  ∧ Forall2 answers (ExtractedReport.claims extracted) results
  ∧ TrustReport.claim_count report
    = Z.of_nat (length (ExtractedReport.claims extracted))
  ∧ TrustReport.trust_score report = calculate_trust_score results
  ∧ TrustReport.has_contradictions report
    = existsb ValidationResult.has_contradictions results.
Proof.
  destruct (validate_report_run report_text extractor_client validator_client
              firecrawl_app st)
    as (ex0 & st1 & output & st0 & Hex & Hrun & Hcases).
  rewrite Hrun. intros [= -> ->].
  destruct ex0 as [ex|]; [|by destruct Hcases].
  destruct (ExtractedReport.claims ex) as [|claim claims] eqn:Hclaims;
    [by destruct Hcases|].
  destruct Hcases
    as (srcs & st2 & rs & st3 & rep & Hstep & Hval & Hlen & Hgen & [= -> -> ->]).
  simpl.
  destruct (validate_all_claims_returns (claim :: claims) srcs
              validator_client st2) as (rs' & st3' & Hval' & Hall).
  rewrite Hval in Hval'. injection Hval' as <- <-.
  destruct (generate_trust_report_fields _ _ _ _ Hgen) as (Hc & Hs & Hf & _).
  split; [done|]. split; [done|].
  split; [by rewrite Hc, Hlen|]. done.
Qed.

(** X18. The pipeline works in stages: one extraction call; then, if there
    is something to report, one scrape per extracted source in order (none
    without a client); then one judgment call per claim with evidence, in
    claim order.  Nothing else is called. *)
Theorem validate_report_call_order
    report_text extractor_client validator_client firecrawl_app st :
  ∃ extracted st1 output st',
    extract_claims_and_sources report_text extractor_client st
    = (Returns extracted, st1)
    ∧ validate_report report_text extractor_client validator_client
                      firecrawl_app st
      = (Returns output, st')
    ∧ trace st'
      = trace st
        ++ ExtractorCall (extractor_messages report_text)
           :: match extracted, output with
              | Some ex, Some (_, _, ex') =>
                  scrape_calls firecrawl_app (ExtractedReport.sources ex)
                  ++ validator_calls (ExtractedReport.claims ex')
                                     (ExtractedReport.sources ex')
              | _, _ => []
              end.
Proof.
  destruct (validate_report_run report_text extractor_client validator_client
              firecrawl_app st)
    as (ex0 & st1 & output & st' & Hex & Hrun & Hcases).
  exists ex0, st1, output, st'. split; [done|]. split; [done|].
  destruct (extract_claims_and_sources_run report_text extractor_client st)
    as (st1' & Hex' & Htr1).
  rewrite Hex in Hex'. injection Hex' as _ <-.
  destruct ex0 as [ex|]; [|destruct Hcases as [-> ->]; exact Htr1].
  destruct (ExtractedReport.claims ex) as [|claim claims] eqn:Hclaims;
    [destruct Hcases as [-> ->]; exact Htr1|].
  destruct Hcases
    as (srcs & st2 & rs & st3 & rep & Hstep & Hval & Hlen & Hgen & ->).
  simpl.
  assert (Htr2 : trace st2
                 = trace st1
                   ++ scrape_calls firecrawl_app (ExtractedReport.sources ex)).
  { destruct (fetch_sources_trace (ExtractedReport.sources ex) firecrawl_app st1)
      as (f & st2' & Hf & Htr).
    destruct (ExtractedReport.sources ex) as [|s l] eqn:Hs.
    - destruct Hstep as [-> ->]. destruct firecrawl_app; simpl;
        by rewrite app_nil_r.
    - rewrite Hstep in Hf. by injection Hf as <- <-. }
  destruct (validate_all_claims_loop_trace (claim :: claims) srcs
              validator_client [] st2) as (rs' & st3' & Hval' & Htr3).
  unfold validate_all_claims in Hval. rewrite Hval in Hval'.
  injection Hval' as <- <-.
  destruct (generate_trust_report_fields _ _ _ _ Hgen) as (_ & _ & _ & Htr4).
  rewrite Htr4, Htr3, Htr2, Htr1, <- !app_assoc. reflexivity.
Qed.

(** X19. When extraction finds claims and no source, nothing is scraped and
    the judgment capability is never called: every claim gets the
    no-evidence verdict, the score is 20.0 and no contradiction is
    reported. *)
Theorem validate_report_without_sources
    report_text extractor_client validator_client firecrawl_app st ex st1 :
  extract_claims_and_sources report_text extractor_client st
  = (Returns (Some ex), st1) →
  ExtractedReport.sources ex = [] →
  ExtractedReport.claims ex ≠ [] →
  ∃ report st',
    validate_report report_text extractor_client validator_client
                    firecrawl_app st
    = (Returns (Some (report, no_sources_result <$> ExtractedReport.claims ex,
                      ex)), st')
    ∧ (TrustReport.trust_score report == 20)%Q
    ∧ TrustReport.has_contradictions report = false
    ∧ trace st' = trace st1.
Proof.
  intros Hex Hsrc Hne.
  destruct (validate_report_run report_text extractor_client validator_client
              firecrawl_app st)
    as (ex0 & st1' & output & st' & Hex' & Hrun & Hcases).
  rewrite Hex in Hex'. injection Hex' as <- <-.
  destruct ex as [claims sources]. simpl in *. subst sources.
  destruct claims as [|claim claims]; [done|].
  destruct Hcases
    as (srcs & st2 & rs & st3 & rep & [-> ->] & Hval & Hlen & Hgen & ->).
  unfold validate_all_claims in Hval.
  rewrite validate_all_claims_loop_no_evidence in Hval by done.
  injection Hval as <- <-.
  destruct (generate_trust_report_fields _ _ _ _ Hgen) as (_ & Hs & Hf & Htr).
  exists rep, st'. split; [exact Hrun|].
  split; [|split; [|done]].
  - rewrite Hs. apply score_all_unverifiable; [done|].
    apply Forall_forall. intros r Hin.
    change (r ∈ no_sources_result <$> (claim :: claims)) in Hin.
    apply list_elem_of_fmap in Hin as (c & -> & _). reflexivity.
  - rewrite Hf.
    apply not_true_iff_false. intros (r & Hin & Hr)%existsb_exists.
    rewrite <- list_elem_of_In in Hin.
    change (r ∈ no_sources_result <$> (claim :: claims)) in Hin.
    apply list_elem_of_fmap in Hin as (c & -> & _). done.
Qed.

End PipelineMore.

(** ** Client initialisation *)

Ltac solve_init_facts :=
  simpl; repeat split; intros;
  repeat match goal with
         | H : is_Some None |- _ => destruct H as [? [=]]
         | H : _ ∧ _ |- _ => destruct H
         | H : _ ∨ _ |- _ => destruct H
         end;
  try done; eauto.

Section ClientsMore.
Context {W : Type}.
Implicit Types (st : @State W) (factory : @ClientFactory W).

(** X20. Initialisation never raises and makes no capability call.  It
    reports valid keys exactly when all three clients are set, which needs
    both keys non-empty; the clients are set in the order extractor,
    validator, scraper; and with an empty key nothing is constructed. *)
Theorem initialize_clients_spec factory gemini_key firecrawl_key st :
  ∃ api_keys_valid extractor_client validator_client firecrawl_app st',
    initialize_clients factory gemini_key firecrawl_key st
    = (Returns (api_keys_valid, extractor_client, validator_client,
                firecrawl_app), st')
    ∧ trace st' = trace st
    ∧ (api_keys_valid = true
       ↔ is_Some extractor_client ∧ is_Some validator_client
         ∧ is_Some firecrawl_app)
    ∧ (api_keys_valid = true → gemini_key ≠ "" ∧ firecrawl_key ≠ "")
    ∧ (is_Some firecrawl_app → is_Some validator_client)
    ∧ (is_Some validator_client → is_Some extractor_client)
    ∧ (gemini_key = "" ∨ firecrawl_key = "" →
       extractor_client = None ∧ validator_client = None
       ∧ firecrawl_app = None ∧ st' = st).
Proof.
  unfold initialize_clients.
  destruct (String.eqb_spec gemini_key "") as [Hg|Hg];
    [|destruct (String.eqb_spec firecrawl_key "") as [Hf|Hf]]; simpl.
  1,2: eexists false, None, None, None, st; split; [reflexivity|];
       solve_init_facts.
  run_m. unfold construct.
  destruct (make_extractor factory (world st)) as [[ec|e] w1]; simpl;
    [|eexists false, None, None, None, _; split; [reflexivity|];
      solve_init_facts].
  destruct (make_validator factory w1) as [[vc|e] w2]; simpl;
    [|eexists false, (Some ec), None, None, _; split; [reflexivity|];
      solve_init_facts].
  destruct (make_firecrawl factory firecrawl_key w2) as [[fa|e] w3]; simpl;
    [|eexists false, (Some ec), (Some vc), None, _; split; [reflexivity|];
      solve_init_facts].
  eexists true, (Some ec), (Some vc), (Some fa), _; split; [reflexivity|].
  solve_init_facts.
Qed.

(** X21. A client set handed out as valid always comes with a scraper, so
    retrieval with it gives every source content. *)
Theorem valid_clients_fetch_content
    factory gemini_key firecrawl_key st
    extractor_client validator_client firecrawl_app st1 sources st2 :
  initialize_clients factory gemini_key firecrawl_key st
  = (Returns (true, extractor_client, validator_client, firecrawl_app), st1) →
  ∃ fetched st3,
    fetch_sources sources firecrawl_app st2 = (Returns fetched, st3)
    ∧ length fetched = length sources
    ∧ Forall (λ s, Source.content s ≠ None) fetched.
Proof.
  intros Hinit.
  assert (Hfa : ∃ app, firecrawl_app = Some app).
  { revert Hinit. unfold initialize_clients.
    destruct (negb _ && negb _); [|by intros [=]].
    run_m. unfold construct.
    destruct (make_extractor factory (world st)) as [[ec|e] w1]; simpl;
      [|by intros [=]].
    destruct (make_validator factory w1) as [[vc|e] w2]; simpl;
      [|by intros [=]].
    destruct (make_firecrawl factory firecrawl_key w2) as [[fa|e] w3]; simpl;
      [|by intros [=]].
    intros [= _ _ <- _]. eauto. }
  destruct Hfa as [app ->]. simpl.
  destruct (fetch_sources_loop_returns app sources st2)
    as (fs & st3 & Hrun & Hlen & _ & Hall).
  exists fs, st3. by rewrite Hrun.
Qed.

End ClientsMore.

(** ** The results table of the application *)

Section KeyedFold.
Context {A V : Type} (key : A → string) (val : A → V).

Lemma keyed_fold_snoc l x :
  foldl (λ d y, <[key y := val y]> d) (∅ : gmap string V) (l ++ [x])
  = <[key x := val x]> (foldl (λ d y, <[key y := val y]> d) ∅ l).
Proof. by rewrite foldl_app. Qed.

Lemma keyed_fold_Some l k v :
  foldl (λ d y, <[key y := val y]> d) (∅ : gmap string V) l !! k = Some v →
  ∃ x, x ∈ l ∧ key x = k ∧ val x = v.
Proof.
  induction l as [|x l IH] using rev_ind.
  - simpl. by rewrite lookup_empty.
  - rewrite keyed_fold_snoc.
    destruct (decide (key x = k)) as [<-|Hne].
    + rewrite lookup_insert_eq. intros [= <-].
      exists x. split; [apply elem_of_app; right; by left | done].
    + rewrite lookup_insert_ne by done. intros (y & Hy & Hk)%IH.
      exists y. split; [apply elem_of_app; by left | done].
Qed.

Lemma keyed_fold_NoDup l x :
  NoDup (key <$> l) → x ∈ l →
  foldl (λ d y, <[key y := val y]> d) (∅ : gmap string V) l !! key x
  = Some (val x).
Proof.
  induction l as [|y l IH] using rev_ind; [by intros _ ?%elem_of_nil|].
  rewrite fmap_app, keyed_fold_snoc. simpl.
  intros (Hl & Hy & _)%NoDup_app [Hx|Hx%list_elem_of_singleton]%elem_of_app.
  - rewrite lookup_insert_ne; [by apply IH|].
    intros Heq. apply (Hy (key x)).
    + by apply list_elem_of_fmap_2.
    + rewrite <- Heq. by left.
  - subst. by rewrite lookup_insert_eq.
Qed.

End KeyedFold.

Lemma fetch_status_fetched s :
  fetch_status s = "Fetched"
  ↔ ∃ c, Source.content s = Some c ∧ c ≠ "" ∧ startswith "Error" c = false.
Proof.
  unfold fetch_status. destruct (Source.content s) as [c|].
  - destruct (String.eqb_spec c "") as [->|Hne]; simpl.
    + split; [done|]. by intros (c & [= <-] & Hc & _).
    + destruct (startswith "Error" c) eqn:Hp; simpl.
      * split; [done|]. intros (c' & [= <-] & _ & Hp'). congruence.
      * split; [|done]. intros _. by exists c.
  - split; [done|]. by intros (c & [=] & _).
Qed.

Lemma source_ids_for_claim_lookup claims claim r :
  NoDup (Claim.id <$> claims) → claim ∈ claims →
  ValidationResult.claim_id r = Claim.id claim →
  source_ids_for_claim claims r = Claim.source_ids claim
  ∧ source_urls_for_claim claims r = Claim.source_urls claim.
Proof.
  intros Hnd Hin Hr.
  unfold source_ids_for_claim, source_urls_for_claim,
         claim_id_to_source_ids, claim_id_to_source_urls.
  rewrite Hr.
  by rewrite (keyed_fold_NoDup Claim.id Claim.source_ids _ _ Hnd Hin),
             (keyed_fold_NoDup Claim.id Claim.source_urls _ _ Hnd Hin).
Qed.

(** X22. With pairwise distinct source ids, the table labels a source cited
    by a claim "Fetched" exactly when that source is in the evidence the
    validator selects for the claim. *)
Theorem fetch_status_matches_evidence (sources : list Source.t) s claim :
  NoDup (Source.id <$> sources) →
  s ∈ sources →
  Source.id s ∈ Claim.source_ids claim →
  (source_fetch_status sources !! Source.id s = Some "Fetched"
   ↔ s ∈ claim_sources claim sources).
Proof.
  intros Hnd Hin Hid. unfold source_fetch_status.
  rewrite (keyed_fold_NoDup Source.id fetch_status _ _ Hnd Hin).
  rewrite claim_sources_usable. unfold usable.
  split.
  - intros [= Hf]. apply fetch_status_fetched in Hf. done.
  - intros (_ & _ & Hc). f_equal. by apply fetch_status_fetched.
Qed.

(** X23. Every source id that linking put in a claim has a fetch status in
    the table built from the fetched sources, provided these carry the ids
    of the sources linked against: the "Unknown" default is never shown. *)
Theorem linked_ids_have_status sources claims fetched linked id :
  Source.id <$> fetched = Source.id <$> sources →
  linked ∈ link_claims sources claims →
  id ∈ Claim.source_ids linked →
  source_fetch_status fetched !! id = Some "Fetched"
  ∨ source_fetch_status fetched !! id = Some "Fetch Error/Empty".
Proof.
  intros Hids (claim & _ & ->)%link_claims_elem Hid. simpl in Hid.
  apply list_elem_of_omap in Hid as (url & _ & Hd).
  destruct (url_to_source_id_Some _ _ _ Hd) as (k & s & Hk & _ & Hs & _).
  assert (Hin : id ∈ Source.id <$> fetched).
  { rewrite Hids, <- Hs. apply list_elem_of_fmap_2.
    by eapply list_elem_of_lookup_2. }
  apply list_elem_of_fmap in Hin as (f & -> & Hf).
  destruct (source_fetch_status fetched !! Source.id f) as [v|] eqn:E.
  - apply keyed_fold_Some in E as (x & _ & _ & <-).
    unfold fetch_status. destruct (Source.content x) as [c|]; [|by right].
    destruct (negb _ && negb _); [by left | by right].
  - exfalso. revert E. unfold source_fetch_status. clear -Hf.
    induction fetched as [|y l IH] using rev_ind; [by apply elem_of_nil in Hf|].
    rewrite keyed_fold_snoc.
    apply elem_of_app in Hf as [Hf|Hf%list_elem_of_singleton].
    + destruct (decide (Source.id y = Source.id f)) as [->|Hne].
      * by rewrite lookup_insert_eq.
      * rewrite lookup_insert_ne by done. by apply IH.
    + subst. by rewrite lookup_insert_eq.
Qed.

(** X24. For a result that answers a claim of the extracted list (claim ids
    pairwise distinct), "Sources Cited" is the number of the claim's source
    ids; and if these and the source ids are free of repetitions, "Valid
    Sources Used" is the number of sources in the validator's evidence. *)
Theorem table_counts_match_validator claims sources claim r :
  NoDup (Claim.id <$> claims) →
  claim ∈ claims →
  ValidationResult.claim_id r = Claim.id claim →
  num_sources claims r = length (Claim.source_ids claim)
  ∧ (NoDup (Source.id <$> sources) →
     NoDup (Claim.source_ids claim) →
     num_valid_sources claims sources r
     = length (claim_sources claim sources)).
Proof.
  intros Hcn Hc Hr.
  destruct (source_ids_for_claim_lookup _ _ _ Hcn Hc Hr) as [Hids _].
  unfold num_sources, num_valid_sources. rewrite Hids. split; [done|].
  intros Hsn Hidn.
  rewrite <- (length_fmap Source.id (claim_sources claim sources)).
  apply Permutation_length, NoDup_Permutation.
  - by apply NoDup_filter.
  - eapply sublist_NoDup; [exact Hsn|].
    apply fmap_sublist, sublist_filter.
  - intros id. rewrite list_elem_of_filter, list_elem_of_fmap. split.
    + intros [Hst Hin].
      apply keyed_fold_Some in Hst as (s & Hs & <- & Hf).
      exists s. split; [done|].
      apply claim_sources_usable. split; [done|]. split; [done|].
      by apply fetch_status_fetched.
    + intros (s & -> & Hs).
      pose proof Hs as [Hin [Hid _]]%claim_sources_usable.
      split; [|done]. unfold source_fetch_status.
      rewrite (keyed_fold_NoDup Source.id fetch_status _ _ Hsn Hin).
      f_equal. apply fetch_status_fetched.
      by apply claim_sources_usable in Hs as [_ [_ ?]].
Qed.

Lemma zip_omap_aligned {A B} (f : A → option B) (l : list A) :
  (∀ x, x ∈ l → is_Some (f x)) →
  ∀ y x, (y, x) ∈ zip (omap f l) l → f x = Some y.
Proof.
  unfold omap. induction l as [|x0 l IH]; intros Hall y x; simpl.
  - by intros ?%elem_of_nil.
  - destruct (Hall x0) as [y0 Hy0]; [by left|]. rewrite Hy0. simpl.
    intros [[= -> ->]|Hin]%elem_of_cons; [done|].
    apply IH; [|done]. intros x' Hx'. apply Hall. by right.
Qed.

Lemma zip_omap_misaligned {A B} (f : A → option B) (pre : list A) x rest :
  f x = None → omap f rest ≠ [] →
  ∃ y x', (y, x') ∈ zip (omap f (pre ++ x :: rest)) (pre ++ x :: rest)
          ∧ f x' ≠ Some y.
Proof.
  intros Hx Hrest. unfold omap in *. induction pre as [|p pre IH]; simpl.
  - rewrite Hx. destruct (list_omap _ _ f rest) as [|y ys]; [done|].
    exists y, x. split; [by left | congruence].
  - destruct IH as (y' & x' & Hin & Hne).
    destruct (f p) as [y|] eqn:Hp; simpl.
    + exists y', x'. split; [by right | done].
    + destruct (list_omap _ _ f (pre ++ x :: rest)) as [|y ys];
        [by apply elem_of_nil in Hin|].
      exists y, p. split; [by left | congruence].
Qed.

Lemma source_lines_elem claims sources claim r id url status :
  NoDup (Claim.id <$> claims) →
  claim ∈ claims →
  ValidationResult.claim_id r = Claim.id claim →
  (id, url, status) ∈ source_lines claims sources r →
  (id, url) ∈ zip (Claim.source_ids claim) (Claim.source_urls claim).
Proof.
  intros Hnd Hin Hr. unfold source_lines.
  destruct (source_ids_for_claim_lookup _ _ _ Hnd Hin Hr) as [-> ->].
  intros ([i u] & [= -> -> _] & Hz)%list_elem_of_fmap. done.
Qed.

(** X25. When every URL a claim cites resolved during linking, each line
    under "Sources Used for this Claim" shows a source id next to the URL
    that was linked to it. *)
Theorem source_lines_aligned
    (d : gmap string string) claims sources claim r id url status :
  NoDup (Claim.id <$> claims) →
  claim ∈ claims →
  ValidationResult.claim_id r = Claim.id claim →
  Claim.source_ids claim = link_source_ids d (Claim.source_urls claim) →
  (∀ u, u ∈ Claim.source_urls claim → is_Some (d !! u)) →
  (id, url, status) ∈ source_lines claims sources r →
  d !! url = Some id.
Proof.
  intros Hnd Hin Hr Hlink Hall Hline.
  apply (source_lines_elem _ _ _ _ _ _ _ Hnd Hin Hr) in Hline.
  rewrite Hlink, link_source_ids_omap in Hline.
  by apply (zip_omap_aligned (λ u, d !! u) _ Hall).
Qed.

(** X26. When a cited URL did not resolve and a later one did, the ids no
    longer line up with the URLs: some line shows a source id next to a URL
    that was not linked to it. *)
Theorem source_lines_misaligned
    (d : gmap string string) claims sources claim r pre u rest :
  NoDup (Claim.id <$> claims) →
  claim ∈ claims →
  ValidationResult.claim_id r = Claim.id claim →
  Claim.source_ids claim = link_source_ids d (Claim.source_urls claim) →
  Claim.source_urls claim = pre ++ u :: rest →
  d !! u = None →
  link_source_ids d rest ≠ [] →
  ∃ id url status,
    (id, url, status) ∈ source_lines claims sources r
    ∧ d !! url ≠ Some id.
Proof.
  intros Hnd Hin Hr Hlink Hurls Hu Hrest.
  rewrite link_source_ids_omap in Hrest.
  destruct (zip_omap_misaligned (λ u, d !! u) pre u rest Hu Hrest)
    as (id & url & Hz & Hne).
  exists id, url, (default "Unknown" (source_fetch_status sources !! id)).
  split; [|done]. unfold source_lines.
  destruct (source_ids_for_claim_lookup _ _ _ Hnd Hin Hr) as [-> ->].
  rewrite Hlink, link_source_ids_omap, Hurls.
  apply list_elem_of_fmap. by exists (id, url).
Qed.

(** * The further properties on the sample data *)

Lemma calculate_trust_score_monotone_witness :
  Forall2 no_worse verdicts_confident verdicts_upgraded
  ∧ (calculate_trust_score verdicts_confident
     <= calculate_trust_score verdicts_upgraded)%Q.
Proof.
  assert (H : Forall2 no_worse verdicts_confident verdicts_upgraded).
  { unfold verdicts_confident, verdicts_upgraded.
    repeat (constructor; [split; [by vm_compute | reflexivity]|]).
    constructor. }
  split; [exact H|]. exact (calculate_trust_score_monotone _ _ H).
Defined.

Lemma calculate_trust_score_flags_antitone_witness :
  Forall2 more_flagged (flagged_results 5 4) (flagged_results 9 0)
  ∧ (calculate_trust_score (flagged_results 9 0)
     <= calculate_trust_score (flagged_results 5 4))%Q.
Proof.
  assert (H : Forall2 more_flagged (flagged_results 5 4) (flagged_results 9 0)).
  { unfold flagged_results. simpl.
    repeat (constructor; [split; [reflexivity | intros _; reflexivity]|]).
    constructor. }
  split; [exact H|]. exact (calculate_trust_score_flags_antitone _ _ H).
Defined.

Lemma calculate_trust_score_uniform_witness :
  flagged_results 3 6 ≠ []
  ∧ Forall (λ r, ValidationResult.status r = SUPPORTED) (flagged_results 3 6)
  ∧ (calculate_trust_score (flagged_results 3 6) == inject_Z 85)%Q.
Proof.
  assert (Hne : flagged_results 3 6 ≠ []) by discriminate.
  assert (Hall : Forall (λ r, ValidationResult.status r = SUPPORTED)
                        (flagged_results 3 6)).
  { unfold flagged_results. simpl. repeat (constructor; [reflexivity|]).
    constructor. }
  split; [exact Hne|]. split; [exact Hall|].
  exact (calculate_trust_score_uniform SUPPORTED _ Hne Hall).
Defined.

Lemma extract_claims_and_sources_unique_ids_witness :
  ∃ ex st',
    extract_claims_and_sources "report" stub_extractor stub_state
    = (Returns (Some ex), st')
    ∧ NoDup (Source.id <$> ExtractedReport.sources ex)
    ∧ NoDup (Claim.id <$> ExtractedReport.claims ex).
Proof.
  destruct (extract_claims_and_sources "report" stub_extractor stub_state)
    as [[[ex|]|e] st'] eqn:E; [|vm_compute in E; discriminate E..].
  exists ex, st'. split; [reflexivity|].
  destruct (extract_claims_and_sources_unique_ids _ _ _ _ _ E) as (H1 & H2 & _).
  split; [exact H1 | exact H2].
Defined.

Lemma extract_claims_and_sources_keeps_data_witness :
  ∃ ex st',
    extract_claims_and_sources "report" stub_extractor stub_state
    = (Returns (Some ex), st')
    ∧ Forall2 same_claim_text sample_raw_claims (ExtractedReport.claims ex)
    ∧ Forall2 same_source_data sample_raw_sources (ExtractedReport.sources ex).
Proof.
  exact (extract_claims_and_sources_keeps_data "report" stub_extractor
           stub_state (ExtractedReport.mk sample_raw_claims sample_raw_sources)
           eq_refl).
Defined.

Lemma url_to_source_id_distinct_urls_witness :
  NoDup (Source.url <$> sample_sources)
  ∧ good_source ∈ sample_sources
  ∧ url_to_source_id sample_sources !! Source.url good_source
    = Some (Source.id good_source).
Proof.
  assert (Hnd : NoDup (Source.url <$> sample_sources)).
  { apply (bool_decide_unpack _). by vm_compute. }
  assert (Hin : good_source ∈ sample_sources) by (by left).
  split; [exact Hnd|]. split; [exact Hin|].
  exact (url_to_source_id_distinct_urls _ _ Hnd Hin).
Defined.

Lemma validate_claim_keeps_verdict_witness :
  claim_sources sample_claim [good_source] ≠ []
  ∧ ∃ r st',
      validate_claim sample_claim [good_source] stub_validator stub_state
      = (Returns (Some r), st')
      ∧ ValidationResult.status r = SUPPORTED
      ∧ ValidationResult.claim_id r = "claim-1b9d6bcd-0".
Proof.
  assert (Hne : claim_sources sample_claim [good_source] ≠ []) by discriminate.
  split; [exact Hne|].
  destruct (validate_claim_keeps_verdict sample_claim [good_source]
              stub_validator stub_state _ Hne eq_refl)
    as (r & st' & Hrun & Hs & _ & _ & _ & (Hid & _) & _).
  exists r, st'. split; [exact Hrun|]. split; [exact Hs | exact Hid].
Defined.

Lemma unlinked_claim_unverifiable_witness :
  orphan_claim ∈ link_claims sample_sources [orphan_claim]
  ∧ Claim.source_ids orphan_claim = []
  ∧ validate_claim orphan_claim sample_sources stub_validator stub_state
    = (Returns (Some (no_sources_result orphan_claim)), stub_state).
Proof.
  assert (Hin : orphan_claim ∈ link_claims sample_sources [orphan_claim]).
  { vm_compute. by left. }
  split; [exact Hin|].
  apply (unlinked_claim_unverifiable sample_sources [orphan_claim] orphan_claim
           sample_sources stub_validator stub_state Hin).
  intros url s [->|[]%elem_of_nil]%elem_of_cons Hs.
  apply elem_of_cons in Hs as [->|Hs]; [discriminate|].
  apply elem_of_cons in Hs as [->|[]%elem_of_nil]; discriminate.
Defined.

Lemma failed_fetch_is_no_evidence_witness :
  ∃ fetched st' s',
    fetch_sources sample_raw_sources (Some stub_firecrawl) stub_state
    = (Returns fetched, st')
    ∧ fetched !! 1%nat = Some s'
    ∧ ∀ claim, is_claim_source claim s' = false.
Proof.
  destruct (fetch_sources sample_raw_sources (Some stub_firecrawl) stub_state)
    as [[fetched|e] st'] eqn:E; [|vm_compute in E; discriminate E].
  destruct (failed_fetch_is_no_evidence stub_firecrawl
              [Source.mk "" "https://a.example/x" None None]
              (Source.mk "" "https://c.example/z" None None)
              [Source.mk "" "https://a.example/x" (Some "again") None]
              stub_state fetched st' E)
    as (fpre & st1 & s' & _ & Hs' & _ & Hno).
  exists fetched, st', s'. split; [reflexivity|]. split; [exact Hs'|].
  apply Hno. exact I.
Defined.

Lemma validate_report_traceable_witness :
  ∃ report results extracted st',
    validate_report "report" stub_extractor stub_validator
                    (Some stub_firecrawl) stub_state
    = (Returns (Some (report, results, extracted)), st')
    ∧ Forall2 answers (ExtractedReport.claims extracted) results
    ∧ TrustReport.claim_count report
      = Z.of_nat (length (ExtractedReport.claims extracted)).
Proof.
  destruct (validate_report "report" stub_extractor stub_validator
              (Some stub_firecrawl) stub_state)
    as [[[[[report results] extracted]|]|e] st'] eqn:E;
    [|vm_compute in E; discriminate E..].
  exists report, results, extracted, st'. split; [reflexivity|].
  destruct (validate_report_traceable _ _ _ _ _ _ _ _ _ E)
    as (_ & Hall & Hcount & _).
  split; [exact Hall | exact Hcount].
Defined.

Lemma validate_report_without_sources_witness :
  ∃ ex st1 report st',
    extract_claims_and_sources "report" sourceless_extractor stub_state
    = (Returns (Some ex), st1)
    ∧ validate_report "report" sourceless_extractor failing_validator
                      (Some stub_firecrawl) stub_state
      = (Returns (Some (report, no_sources_result <$> ExtractedReport.claims ex,
                        ex)), st')
    ∧ (TrustReport.trust_score report == 20)%Q.
Proof.
  destruct (extract_claims_and_sources "report" sourceless_extractor stub_state)
    as [[[ex|]|e] st1] eqn:E; [|vm_compute in E; discriminate E..].
  assert (Hsrc : ExtractedReport.sources ex = []).
  { vm_compute in E. by injection E as <- _. }
  assert (Hne : ExtractedReport.claims ex ≠ []).
  { vm_compute in E. by injection E as <- _. }
  destruct (validate_report_without_sources "report" sourceless_extractor
              failing_validator (Some stub_firecrawl) stub_state ex st1
              E Hsrc Hne)
    as (report & st' & Hrun & Hscore & _).
  exists ex, st1, report, st'. split; [reflexivity|].
  split; [exact Hrun | exact Hscore].
Defined.

Lemma valid_clients_fetch_content_witness :
  initialize_clients stub_factory "gemini-key" "firecrawl-key" stub_state
  = (Returns (true, Some stub_extractor, Some stub_validator,
              Some stub_firecrawl), mkState 3%nat [])
  ∧ ∃ fetched st3,
      fetch_sources sample_raw_sources (Some stub_firecrawl) stub_state
      = (Returns fetched, st3)
      ∧ Forall (λ s, Source.content s ≠ None) fetched.
Proof.
  assert (H : initialize_clients stub_factory "gemini-key" "firecrawl-key"
                stub_state
              = (Returns (true, Some stub_extractor, Some stub_validator,
                          Some stub_firecrawl), mkState 3%nat []))
    by reflexivity.
  split; [exact H|].
  destruct (valid_clients_fetch_content _ _ _ _ _ _ _ _ sample_raw_sources
              stub_state H) as (fetched & st3 & Hrun & _ & Hall).
  exists fetched, st3. split; [exact Hrun | exact Hall].
Defined.

Lemma fetch_status_matches_evidence_witness :
  NoDup (Source.id <$> sample_sources)
  ∧ good_source ∈ sample_sources
  ∧ Source.id good_source ∈ Claim.source_ids sample_claim
  ∧ (source_fetch_status sample_sources !! Source.id good_source
     = Some "Fetched"
     ↔ good_source ∈ claim_sources sample_claim sample_sources).
Proof.
  assert (Hnd : NoDup (Source.id <$> sample_sources)).
  { apply (bool_decide_unpack _). by vm_compute. }
  assert (Hin : good_source ∈ sample_sources) by (by left).
  assert (Hid : Source.id good_source ∈ Claim.source_ids sample_claim)
    by (by left).
  split; [exact Hnd|]. split; [exact Hin|]. split; [exact Hid|].
  exact (fetch_status_matches_evidence _ _ _ Hnd Hin Hid).
Defined.

Lemma linked_ids_have_status_witness :
  Source.id <$> sample_sources = Source.id <$> sample_sources
  ∧ sample_claim ∈ link_claims sample_sources [sample_claim]
  ∧ "source-1b9d6bcd-0" ∈ Claim.source_ids sample_claim
  ∧ (source_fetch_status sample_sources !! "source-1b9d6bcd-0"
     = Some "Fetched"
     ∨ source_fetch_status sample_sources !! "source-1b9d6bcd-0"
       = Some "Fetch Error/Empty").
Proof.
  assert (Hl : sample_claim ∈ link_claims sample_sources [sample_claim]).
  { vm_compute. by left. }
  assert (Hid : "source-1b9d6bcd-0" ∈ Claim.source_ids sample_claim)
    by (by left).
  split; [reflexivity|]. split; [exact Hl|]. split; [exact Hid|].
  exact (linked_ids_have_status sample_sources [sample_claim] sample_sources
           sample_claim _ eq_refl Hl Hid).
Defined.

Lemma table_counts_match_validator_witness :
  NoDup (Claim.id <$> [sample_claim; cold_claim])
  ∧ NoDup (Source.id <$> sample_sources)
  ∧ NoDup (Claim.source_ids sample_claim)
  ∧ num_sources [sample_claim; cold_claim] sample_answer = 1%nat
  ∧ num_valid_sources [sample_claim; cold_claim] sample_sources sample_answer
    = length (claim_sources sample_claim sample_sources).
Proof.
  assert (Hcn : NoDup (Claim.id <$> [sample_claim; cold_claim])).
  { apply (bool_decide_unpack _). by vm_compute. }
  assert (Hsn : NoDup (Source.id <$> sample_sources)).
  { apply (bool_decide_unpack _). by vm_compute. }
  assert (Hin : NoDup (Claim.source_ids sample_claim)).
  { apply (bool_decide_unpack _). by vm_compute. }
  split; [exact Hcn|]. split; [exact Hsn|]. split; [exact Hin|].
  destruct (table_counts_match_validator [sample_claim; cold_claim]
              sample_sources sample_claim sample_answer Hcn ltac:(by left)
              eq_refl) as [Hcited Hvalid].
  split; [exact Hcited | exact (Hvalid Hsn Hin)].
Defined.

Lemma source_lines_aligned_witness :
  ("source-1b9d6bcd-0", "https://a.example/x", "Fetched")
    ∈ source_lines [sample_claim; cold_claim] sample_sources sample_answer
  ∧ url_to_source_id sample_sources !! "https://a.example/x"
    = Some "source-1b9d6bcd-0".
Proof.
  assert (Hline : ("source-1b9d6bcd-0", "https://a.example/x", "Fetched")
            ∈ source_lines [sample_claim; cold_claim] sample_sources
                           sample_answer).
  { vm_compute. by left. }
  split; [exact Hline|].
  apply (source_lines_aligned (url_to_source_id sample_sources)
           [sample_claim; cold_claim] sample_sources sample_claim sample_answer
           _ _ "Fetched");
    [| by left | reflexivity | vm_compute; reflexivity | | exact Hline].
  - apply (bool_decide_unpack _). by vm_compute.
  - intros u [->|[]%elem_of_nil]%elem_of_cons. vm_compute. eauto.
Defined.

Lemma source_lines_misaligned_witness :
  ∃ id url status,
    (id, url, status) ∈ source_lines [shifted_claim] sample_sources shifted_answer
    ∧ url_to_source_id sample_sources !! url ≠ Some id.
Proof.
  apply (source_lines_misaligned (url_to_source_id sample_sources)
           [shifted_claim] sample_sources shifted_claim shifted_answer
           [] "https://nowhere.example" ["https://a.example/x"]).
  - apply (bool_decide_unpack _). by vm_compute.
  - by left.
  - reflexivity.
  - vm_compute. reflexivity.
  - reflexivity.
  - vm_compute. reflexivity.
  - vm_compute. discriminate.
Defined.

Lemma initialize_clients_spec_witness :
  ∃ api_keys_valid,
    initialize_clients stub_factory "" "firecrawl-key" stub_state
    = (Returns (api_keys_valid, None, None, None), stub_state)
    ∧ api_keys_valid ≠ true.
Proof.
  destruct (initialize_clients_spec stub_factory "" "firecrawl-key" stub_state)
    as (valid & ec & vc & fa & st' & Hrun & _ & Hvalid & _ & _ & _ & Hempty).
  destruct (Hempty (or_introl eq_refl)) as (-> & -> & -> & ->).
  exists valid. split; [exact Hrun|].
  intros Hv. apply Hvalid in Hv as ([? Hsome] & _). discriminate Hsome.
Defined.
